(** * Plugin Collection Manager: a shallow embedding of
      [PluginCollectionManager] (v3/@claude-flow/cli/src/config-adapter.ts,
      second document of the file) and the properties of its specification.

    The manager is JavaScript once its TypeScript annotations are erased, and
    several of its private helpers are declared [async] while their callers
    use the returned value without [await].  The embedding therefore keeps a
    small universe of run-time values in which a promise is an ordinary
    (truthy) object, and every method is written over that universe exactly
    as the source is.

    The first document of the file, the configuration adapter
    ([systemConfigToV3Config] and [v3ConfigToSystemConfig]), is embedded as
    two functions between records, with [?.], [??] and [||] written out on
    optional fields. *)

From Stdlib Require Import ZArith QArith Ascii.
From stdpp Require Import base option strings gmap sets list sorting.

Local Open Scope string_scope.
Local Open Scope Z_scope.

(** ** Data model *)

Inductive PluginCategory :=
  | agent | task | tool | memory | provider | hook | worker | integration | utility.

Inductive PluginCapability :=
  | cap_network | cap_filesystem | cap_subprocess | cap_memory | cap_llm | cap_mcp.

#[global] Instance PluginCategory_eq_dec : EqDecision PluginCategory.
Proof. solve_decision. Defined.

(** The string a category value is at run time. *)
Definition category_string (c : PluginCategory) : string :=
  match c with
  | agent => "agent" | task => "task" | tool => "tool" | memory => "memory"
  | provider => "provider" | hook => "hook" | worker => "worker"
  | integration => "integration" | utility => "utility"
  end.

(** Errors a method can throw (or a promise can reject with). *)
Inductive JsError :=
  | TypeError
      (* reading a property of [undefined] *)
  | CollectionAlreadyLoaded (collectionId : string)
      (* Error(`Collection ${id} already loaded`) *)
  | CollectionNotFound (collectionId : string)
      (* Error(`Collection ${collectionId} not found`) *)
  | PluginNotFound (pluginName collectionId : string)
      (* Error(`Plugin ${pluginName} not found in collection ${collectionId}`) *)
  | CannotDisable (pluginName : string)
      (* Error(`Cannot disable ${pluginName}: other plugins may depend on it`) *)
  | ExternalError (message : string).
      (* thrown by the registry or by a plugin factory *)

Definition Result (A : Type) : Type := JsError + A.

Definition throw {A} (e : JsError) : Result A := inl e.
Definition ok {A} (a : A) : Result A := inr a.

(** Modelled from the spec: the plugin descriptor ([IPlugin], imported from
    ../core/plugin-interface.js).  The manager reads [metadata.name] and
    [metadata.description]; the registry boundary of the specification speaks of
    plugins that declare a dependency on another plugin's name. *)
Record IPlugin := {
  metadata_name : string;
  metadata_description : option string;
  metadata_dependencies : list string;
}.

(** A deferred factory: a zero-argument function that produces a descriptor or
    throws. *)
Definition PluginFactory : Type := unit → Result IPlugin.

Inductive PluginRef :=
  | Ready (p : IPlugin)
  | Deferred (f : PluginFactory).

Record PluginCollectionEntry := {
  plugin : PluginRef;
  defaultEnabled : bool;
  category : PluginCategory;
  tags : option (list string);
  requiredCapabilities : option (list PluginCapability);
  description : option string;
}.

Record PluginCollection := {
  col_id : string;
  col_name : string;
  col_version : string;
  col_categories : option (list PluginCategory);
  plugins : list PluginCollectionEntry;
}.

(** Settings payloads are opaque to the manager. *)
Inductive SettingValue :=
  | SvNull | SvBool (b : bool) | SvNum (z : Z) | SvStr (s : string).

Abbreviation Settings := (gmap string SettingValue).

(** [Partial<PluginConfig>] as the manager builds it. *)
Record PluginConfig := {
  cfg_enabled : bool;
  cfg_settings : Settings;
}.

Record CollectionManagerState := {
  st_version : string;
  st_collections : list string;
  st_enabledPlugins : gmap string (list string);
  st_disabledPlugins : gmap string (list string);
  st_pluginSettings : gmap string Settings;
}.

(** ** Run-time values

    The values that flow through the variables [entry], [plugin] and through
    the result of [isEnabled].  A promise is represented by the outcome it
    settles with; none of the un-awaited helpers writes to the manager, so the
    outcome is the one computed from the state at the call.  What the host
    does with a rejected promise that nobody awaits is outside the model. *)

Inductive Value :=
  | VUndefined
  | VBool (b : bool)
  | VEntry (e : PluginCollectionEntry)
  | VPluginObj (p : IPlugin)
  | VFunction (f : PluginFactory)
  | VPromise (o : Outcome)
with Outcome :=
  | Fulfilled (v : Value)
  | Rejected (e : JsError).

(** JavaScript truthiness: [undefined] and [false] are falsy, every object
    (a promise included) is truthy. *)
Definition truthy (v : Value) : bool :=
  match v with
  | VUndefined => false
  | VBool b => b
  | _ => true
  end.

(** Property read [v.plugin]. *)
Definition prop_plugin (v : Value) : Result Value :=
  match v with
  | VUndefined => throw TypeError
  | VEntry e =>
      ok (match plugin e with Ready p => VPluginObj p | Deferred f => VFunction f end)
  | _ => ok VUndefined
  end.

(** Property read [v.defaultEnabled]. *)
Definition prop_defaultEnabled (v : Value) : Result Value :=
  match v with
  | VUndefined => throw TypeError
  | VEntry e => ok (VBool (defaultEnabled e))
  | _ => ok VUndefined
  end.

(** [v.metadata]: only a descriptor has one; on [undefined] the read throws, on
    any other object it yields [undefined], whose [.name] then throws. *)
Definition prop_metadata (v : Value) : Result IPlugin :=
  match v with
  | VPluginObj p => ok p
  | _ => throw TypeError
  end.

(** The rest of an [async] body after a step that may throw. *)
Definition of_result {A} (r : Result A) (k : A → Outcome) : Outcome :=
  match r with
  | inl e => Rejected e
  | inr a => k a
  end.

(** [resolvePlugin]:
    [return typeof plugin === 'function' ? await plugin() : plugin]. *)
Definition resolvePlugin (plugin : Value) : Outcome :=
  match plugin with
  | VFunction f => of_result (f tt) (λ p, Fulfilled (VPluginObj p))
  | VPromise o => o
  | v => Fulfilled v
  end.

(** The statement pair
    [const plugin = await this.resolvePlugin(X.plugin); ... plugin.metadata ...]
    that every method starts with. *)
Definition resolve_metadata (x : Value) : Result IPlugin :=
  match prop_plugin x with
  | inl e => throw e
  | inr pv =>
      match resolvePlugin pv with
      | Rejected e => throw e
      | Fulfilled plugin => prop_metadata plugin
      end
  end.

(** [findPluginEntry] (declared [async]): the promise's outcome. *)
Fixpoint findPluginEntry_loop (entries : list PluginCollectionEntry)
    (pluginName : string) : Outcome :=
  match entries with
  | [] => Fulfilled VUndefined
  | entry :: rest =>
      of_result (resolve_metadata (VEntry entry)) (λ plugin,
        if String.eqb (metadata_name plugin) pluginName
        then Fulfilled (VEntry entry)
        else findPluginEntry_loop rest pluginName)
  end.

Definition findPluginEntry (collection : PluginCollection) (pluginName : string)
    : Outcome :=
  findPluginEntry_loop (plugins collection) pluginName.

(** ** The external registry

    [PluginRegistry] is imported from ../registry/plugin-registry.js; the
    manager only calls [register], [unregister] and [getPlugin].  Each call may
    throw and may change the registry. *)

Class PluginRegistry (R : Type) := {
  register : IPlugin → PluginConfig → R → Result unit * R;
  unregister : string → R → Result unit * R;
  getPlugin : string → R → option IPlugin;
}.

(** ** Insertion-ordered [Map<string, V>] (for [collections], whose iteration
    order is observable) *)

Fixpoint Map_get {V} (k : string) (m : list (string * V)) : option V :=
  match m with
  | [] => None
  | (k', v) :: rest => if String.eqb k' k then Some v else Map_get k rest
  end.

Definition Map_has {V} (k : string) (m : list (string * V)) : bool :=
  match Map_get k m with Some _ => true | None => false end.

(** [set] keeps the position of a key that is present and appends a new one. *)
Fixpoint Map_set {V} (k : string) (v : V) (m : list (string * V)) : list (string * V) :=
  match m with
  | [] => [(k, v)]
  | (k', v') :: rest =>
      if String.eqb k' k then (k', v) :: rest else (k', v') :: Map_set k v rest
  end.

Fixpoint Map_delete {V} (k : string) (m : list (string * V)) : list (string * V) :=
  match m with
  | [] => []
  | (k', v') :: rest =>
      if String.eqb k' k then Map_delete k rest else (k', v') :: Map_delete k rest
  end.

(** [s?.has(x)] on the result of a [Map.get]. *)
Definition optional_has (s : option (gset string)) (x : string) : bool :=
  match s with
  | Some s => bool_decide (x ∈ s)
  | None => false
  end.

(** ** The manager *)

Section Manager.
Context {R : Type} `{!PluginRegistry R}.

Record Manager := {
  collections : list (string * PluginCollection);
  enabledOverrides : gmap string (gset string);
  disabledOverrides : gmap string (gset string);
  pluginSettings : gmap string Settings;
  registry : R;
  autoInitialize : bool;
}.

(** [new PluginCollectionManager({ registry, autoInitialize })]. *)
Definition new_manager (reg : R) (auto : option bool) : Manager :=
  {| collections := []; enabledOverrides := ∅; disabledOverrides := ∅;
     pluginSettings := ∅; registry := reg;
     autoInitialize := default true auto |}.

Definition set_collections (f : list (string * PluginCollection) → list (string * PluginCollection))
    (m : Manager) : Manager :=
  {| collections := f (collections m); enabledOverrides := enabledOverrides m;
     disabledOverrides := disabledOverrides m; pluginSettings := pluginSettings m;
     registry := registry m; autoInitialize := autoInitialize m |}.

Definition set_enabledOverrides (f : gmap string (gset string) → gmap string (gset string))
    (m : Manager) : Manager :=
  {| collections := collections m; enabledOverrides := f (enabledOverrides m);
     disabledOverrides := disabledOverrides m; pluginSettings := pluginSettings m;
     registry := registry m; autoInitialize := autoInitialize m |}.

Definition set_disabledOverrides (f : gmap string (gset string) → gmap string (gset string))
    (m : Manager) : Manager :=
  {| collections := collections m; enabledOverrides := enabledOverrides m;
     disabledOverrides := f (disabledOverrides m); pluginSettings := pluginSettings m;
     registry := registry m; autoInitialize := autoInitialize m |}.

Definition set_pluginSettings (f : gmap string Settings → gmap string Settings)
    (m : Manager) : Manager :=
  {| collections := collections m; enabledOverrides := enabledOverrides m;
     disabledOverrides := disabledOverrides m; pluginSettings := f (pluginSettings m);
     registry := registry m; autoInitialize := autoInitialize m |}.

Definition set_registry (reg : R) (m : Manager) : Manager :=
  {| collections := collections m; enabledOverrides := enabledOverrides m;
     disabledOverrides := disabledOverrides m; pluginSettings := pluginSettings m;
     registry := reg; autoInitialize := autoInitialize m |}.

(** *** Awaited code: state passing with exceptions

    A method body is run to completion before the next one starts; what it
    wrote before throwing stays written. *)

Definition Async (A : Type) : Type := Manager → Result A * Manager.

Definition ret {A} (a : A) : Async A := λ m, (ok a, m).
Definition raise {A} (e : JsError) : Async A := λ m, (throw e, m).
Definition lift {A} (r : Result A) : Async A := λ m, (r, m).
Definition bind {A B} (c : Async A) (k : A → Async B) : Async B :=
  λ m, match c m with
       | (inl e, m') => (inl e, m')
       | (inr a, m') => k a m'
       end.
Definition this : Async Manager := λ m, (ok m, m).
Definition modify (f : Manager → Manager) : Async unit := λ m, (ok tt, f m).
(** [try { c } catch { h }] *)
Definition try_catch {A} (c : Async A) (h : Async A) : Async A :=
  λ m, match c m with
       | (inl _, m') => h m'
       | (inr a, m') => (inr a, m')
       end.
(** A call into the registry. *)
Definition call_registry {A} (f : R → Result A * R) : Async A :=
  λ m, let '(r, reg) := f (registry m) in (r, set_registry reg m).

Notation "x <- c ;; k" := (bind c (λ x, k))
  (at level 100, c at next level, right associativity).
Notation "c ;; k" := (bind c (λ _, k))
  (at level 100, right associativity).

Fixpoint for_each {A} (l : list A) (body : A → Async unit) : Async unit :=
  match l with
  | [] => ret tt
  | x :: rest => body x ;; for_each rest body
  end.

(** *** Private helpers *)

(** [isPluginEnabled] (declared [async]): the promise's outcome. *)
Definition isPluginEnabled (m : Manager) (collectionId : string) (entry : Value)
    : Outcome :=
  of_result (resolve_metadata entry) (λ plugin,
    let name := metadata_name plugin in
    if optional_has (enabledOverrides m !! collectionId) name
    then Fulfilled (VBool true)
    else if optional_has (disabledOverrides m !! collectionId) name
    then Fulfilled (VBool false)
    else of_result (prop_defaultEnabled entry) Fulfilled).

Definition registerPlugin (entry : Value) : Async unit :=
  plugin <- lift (resolve_metadata entry) ;;
  m <- this ;;
  let settings := pluginSettings m !! metadata_name plugin in
  let config := {| cfg_enabled := true; cfg_settings := default ∅ settings |} in
  call_registry (register plugin config).

(** *** Collection management *)

Definition loadCollection (collection : PluginCollection) : Async unit :=
  m <- this ;;
  if Map_has (col_id collection) (collections m)
  then raise (CollectionAlreadyLoaded (col_id collection))
  else
    modify (set_collections (Map_set (col_id collection) collection)) ;;
    modify (set_enabledOverrides <[col_id collection := ∅]>) ;;
    modify (set_disabledOverrides <[col_id collection := ∅]>) ;;
    for_each (plugins collection) (λ entry,
      m <- this ;;
      if truthy (VPromise (isPluginEnabled m (col_id collection) (VEntry entry)))
      then registerPlugin (VEntry entry)
      else ret tt).

Definition unloadCollection (collectionId : string) : Async unit :=
  m <- this ;;
  match Map_get collectionId (collections m) with
  | None => raise (CollectionNotFound collectionId)
  | Some collection =>
      for_each (plugins collection) (λ entry,
        plugin <- lift (resolve_metadata (VEntry entry)) ;;
        let name := metadata_name plugin in
        m <- this ;;
        if bool_decide (is_Some (getPlugin name (registry m)))
        then try_catch (call_registry (unregister name)) (ret tt)
        else ret tt) ;;
      modify (set_collections (Map_delete collectionId)) ;;
      modify (set_enabledOverrides (delete collectionId)) ;;
      modify (set_disabledOverrides (delete collectionId))
  end.

Definition listCollections (m : Manager) : list PluginCollection :=
  (collections m).*2.

Definition getCollection (m : Manager) (id : string) : option PluginCollection :=
  Map_get id (collections m).

(** *** Plugin activation *)

Definition enablePlugin (collectionId pluginName : string) : Async unit :=
  m <- this ;;
  match Map_get collectionId (collections m) with
  | None => raise (CollectionNotFound collectionId)
  | Some collection =>
      let entry := VPromise (findPluginEntry collection pluginName) in
      if negb (truthy entry)
      then raise (PluginNotFound pluginName collectionId)
      else
        modify (set_disabledOverrides (alter (λ s, s ∖ {[pluginName]}) collectionId)) ;;
        modify (set_enabledOverrides (alter (λ s, {[pluginName]} ∪ s) collectionId)) ;;
        plugin <- lift (resolve_metadata entry) ;;
        m <- this ;;
        if negb (bool_decide (is_Some (getPlugin (metadata_name plugin) (registry m))))
        then registerPlugin entry
        else ret tt
  end.

Definition disablePlugin (collectionId pluginName : string) : Async unit :=
  m <- this ;;
  match Map_get collectionId (collections m) with
  | None => raise (CollectionNotFound collectionId)
  | Some collection =>
      let entry := VPromise (findPluginEntry collection pluginName) in
      if negb (truthy entry)
      then raise (PluginNotFound pluginName collectionId)
      else
        modify (set_enabledOverrides (alter (λ s, s ∖ {[pluginName]}) collectionId)) ;;
        modify (set_disabledOverrides (alter (λ s, {[pluginName]} ∪ s) collectionId)) ;;
        plugin <- lift (resolve_metadata entry) ;;
        m <- this ;;
        if bool_decide (is_Some (getPlugin (metadata_name plugin) (registry m)))
        then try_catch (call_registry (unregister (metadata_name plugin)))
                       (raise (CannotDisable pluginName))
        else ret tt
  end.

(** [isEnabled] is not [async]: it hands back whatever its last call returned. *)
Definition isEnabled (m : Manager) (collectionId pluginName : string) : Value :=
  match Map_get collectionId (collections m) with
  | None => VBool false
  | Some collection =>
      let entry := VPromise (findPluginEntry collection pluginName) in
      if negb (truthy entry)
      then VBool false
      else VPromise (isPluginEnabled m collectionId entry)
  end.

Definition togglePlugin (collectionId pluginName : string) : Async bool :=
  m <- this ;;
  if truthy (isEnabled m collectionId pluginName)
  then disablePlugin collectionId pluginName ;; ret false
  else enablePlugin collectionId pluginName ;; ret true.

(** *** Bulk operations *)

Definition enableAll (collectionId : string) : Async unit :=
  m <- this ;;
  match Map_get collectionId (collections m) with
  | None => raise (CollectionNotFound collectionId)
  | Some collection =>
      for_each (plugins collection) (λ entry,
        plugin <- lift (resolve_metadata (VEntry entry)) ;;
        enablePlugin collectionId (metadata_name plugin))
  end.

Definition disableAll (collectionId : string) : Async unit :=
  m <- this ;;
  match Map_get collectionId (collections m) with
  | None => raise (CollectionNotFound collectionId)
  | Some collection =>
      let entries := reverse (plugins collection) in
      for_each entries (λ entry,
        plugin <- lift (resolve_metadata (VEntry entry)) ;;
        try_catch (disablePlugin collectionId (metadata_name plugin)) (ret tt))
  end.

Definition enableCategory (cat : PluginCategory) : Async unit :=
  m <- this ;;
  for_each (collections m) (λ '(collectionId, collection),
    for_each (plugins collection) (λ entry,
      if bool_decide (category entry = cat)
      then
        plugin <- lift (resolve_metadata (VEntry entry)) ;;
        try_catch (enablePlugin collectionId (metadata_name plugin)) (ret tt)
      else ret tt)).

Definition disableCategory (cat : PluginCategory) : Async unit :=
  m <- this ;;
  for_each (collections m) (λ '(collectionId, collection),
    let entries := reverse (plugins collection) in
    for_each entries (λ entry,
      if bool_decide (category entry = cat)
      then
        plugin <- lift (resolve_metadata (VEntry entry)) ;;
        try_catch (disablePlugin collectionId (metadata_name plugin)) (ret tt)
      else ret tt)).

(** *** Filtering and search *)

Record PluginListing := {
  pl_collectionId : string;
  pl_entry : PluginCollectionEntry;
  pl_enabled : Value;
}.

Definition listing_where (keep : PluginCollectionEntry → bool) (m : Manager)
    : list PluginListing :=
  '(collectionId, collection) ← collections m;
  entry ← plugins collection;
  if keep entry
  then [ {| pl_collectionId := collectionId; pl_entry := entry;
            pl_enabled := VPromise (isPluginEnabled m collectionId (VEntry entry)) |} ]
  else [].

Definition getPluginsByCategory (m : Manager) (cat : PluginCategory) : list PluginListing :=
  listing_where (λ entry, bool_decide (category entry = cat)) m.

Definition getPluginsByTag (m : Manager) (tag : string) : list PluginListing :=
  listing_where (λ entry,
    match tags entry with
    | Some ts => bool_decide (tag ∈ ts)
    | None => false
    end) m.

(** [String.prototype.toLowerCase], on the ASCII letters; other bytes are left
    as they are. *)
Definition lower_ascii (c : ascii) : ascii :=
  let n := Ascii.nat_of_ascii c in
  if ((65 <=? n) && (n <=? 90))%nat then Ascii.ascii_of_nat (n + 32) else c.

Fixpoint toLowerCase (s : string) : string :=
  match s with
  | EmptyString => EmptyString
  | String c rest => String (lower_ascii c) (toLowerCase rest)
  end.

(** [s.includes(sub)]: [sub] occurs in [s] at some position. *)
Fixpoint includes (s sub : string) : bool :=
  String.prefix sub s ||
  match s with
  | EmptyString => false
  | String _ rest => includes rest sub
  end.

Record SearchResult := {
  sr_collectionId : string;
  sr_entry : PluginCollectionEntry;
  sr_pluginName : string;
  sr_enabled : Value;
  sr_score : Z;
}.

(** The body of the inner loop of [searchPlugins], for one entry whose plugin
    has been resolved: the value of [score] when the loop reaches
    [if (score > 0)]. *)
Definition search_score (queryLower : string) (entry : PluginCollectionEntry)
    (plugin : IPlugin) : Z :=
  let name := toLowerCase (metadata_name plugin) in
  let description :=
    toLowerCase
      (match description entry with
       | Some d => d
       | None => default "" (metadata_description plugin)
       end) in
  let score := 0 in
  let score :=
    if String.eqb name queryLower then score + 100
    else if includes name queryLower then score + 50
    else score in
  let score := if includes description queryLower then score + 25 else score in
  let score :=
    if match tags entry with
       | Some ts => existsb (λ t, includes (toLowerCase t) queryLower) ts
       | None => false
       end
    then score + 30 else score in
  let score :=
    if includes (toLowerCase (category_string (category entry))) queryLower
    then score + 20 else score in
  score.

Fixpoint search_entries (m : Manager) (queryLower collectionId : string)
    (entries : list PluginCollectionEntry) (results : list SearchResult)
    : Result (list SearchResult) :=
  match entries with
  | [] => ok results
  | entry :: rest =>
      match resolve_metadata (VEntry entry) with
      | inl e => throw e
      | inr plugin =>
          let score := search_score queryLower entry plugin in
          let results :=
            if 0 <? score
            then (results ++
                  [ {| sr_collectionId := collectionId; sr_entry := entry;
                       sr_pluginName := metadata_name plugin;
                       sr_enabled :=
                         VPromise (isPluginEnabled m collectionId (VEntry entry));
                       sr_score := score |} ])%list
            else results in
          search_entries m queryLower collectionId rest results
      end
  end.

Fixpoint search_collections (m : Manager) (queryLower : string)
    (cols : list (string * PluginCollection)) (results : list SearchResult)
    : Result (list SearchResult) :=
  match cols with
  | [] => ok results
  | (collectionId, collection) :: rest =>
      match search_entries m queryLower collectionId (plugins collection) results with
      | inl e => throw e
      | inr results => search_collections m queryLower rest results
      end
  end.

(** [Array.prototype.sort(compare)] is stable: elements that compare equal
    keep their order.  An element moves behind exactly those that the
    comparator puts strictly before it. *)
Fixpoint sort_insert {A} (compare : A → A → Z) (x : A) (sorted : list A) : list A :=
  match sorted with
  | [] => [x]
  | y :: rest =>
      if 0 <? compare x y then y :: sort_insert compare x rest
      else x :: y :: rest
  end.

Definition Array_sort {A} (compare : A → A → Z) (l : list A) : list A :=
  foldr (sort_insert compare) [] l.

(** [searchPlugins] (the outcome of the promise it returns). *)
Definition searchPlugins (m : Manager) (query : string) : Result (list SearchResult) :=
  let queryLower := toLowerCase query in
  match search_collections m queryLower (collections m) [] with
  | inl e => throw e
  | inr results => ok (Array_sort (λ a b, sr_score b - sr_score a) results)
  end.

(** *** Settings *)

Definition getPluginSettings (m : Manager) (pluginName : string) : Settings :=
  default ∅ (pluginSettings m !! pluginName).

Definition setPluginSettings (pluginName : string) (settings : Settings)
    (m : Manager) : Manager :=
  set_pluginSettings <[pluginName := settings]> m.

(** [{ ...existing, ...settings }]: a key of [settings] wins. *)
Definition updatePluginSettings (pluginName : string) (settings : Settings)
    (m : Manager) : Manager :=
  let existing := default ∅ (pluginSettings m !! pluginName) in
  set_pluginSettings <[pluginName := settings ∪ existing]> m.

(** *** State persistence *)

Definition importState (state : CollectionManagerState) (m : Manager) : Manager :=
  let m :=
    set_enabledOverrides (λ overrides,
      map_fold (λ collectionId plugins acc,
                  <[collectionId := list_to_set plugins]> acc)
               overrides (st_enabledPlugins state)) m in
  let m :=
    set_disabledOverrides (λ overrides,
      map_fold (λ collectionId plugins acc,
                  <[collectionId := list_to_set plugins]> acc)
               overrides (st_disabledPlugins state)) m in
  set_pluginSettings (λ stored,
    map_fold (λ name settings acc, <[name := settings]> acc)
             stored (st_pluginSettings state)) m.

(** *** Statistics *)

Record CollectionStats := {
  totalCollections : Z;
  totalPlugins : Z;
  enabledPlugins : Z;
  disabledPlugins : Z;
  byCategory : list (PluginCategory * Z);
}.

(** [byCategory[c]++] *)
Definition incr_category (c : PluginCategory) (h : list (PluginCategory * Z))
    : list (PluginCategory * Z) :=
  map (λ kv, if bool_decide (kv.1 = c) then (kv.1, kv.2 + 1) else kv) h.

Definition stats_entry (m : Manager) (collectionId : string)
    (acc : CollectionStats) (entry : PluginCollectionEntry) : CollectionStats :=
  let total := totalPlugins acc + 1 in
  let hist := incr_category (category entry) (byCategory acc) in
  if truthy (VPromise (isPluginEnabled m collectionId (VEntry entry)))
  then {| totalCollections := totalCollections acc; totalPlugins := total;
          enabledPlugins := enabledPlugins acc + 1;
          disabledPlugins := disabledPlugins acc; byCategory := hist |}
  else {| totalCollections := totalCollections acc; totalPlugins := total;
          enabledPlugins := enabledPlugins acc;
          disabledPlugins := disabledPlugins acc + 1; byCategory := hist |}.

Definition getStats (m : Manager) : CollectionStats :=
  let init :=
    {| totalCollections := Z.of_nat (length (collections m));
       totalPlugins := 0; enabledPlugins := 0; disabledPlugins := 0;
       byCategory :=
         [ (agent, 0); (task, 0); (tool, 0); (memory, 0); (provider, 0);
           (hook, 0); (worker, 0); (integration, 0); (utility, 0) ] |} in
  foldl (λ acc '(collectionId, collection),
           foldl (stats_entry m collectionId) acc (plugins collection))
        init (collections m).

(** *** Sequences of operations

    The public methods that write to the manager.  [loadState] is
    [importState] of whatever the file holds; the remaining methods
    ([isEnabled], the listings, [searchPlugins], [getPluginSettings],
    [exportState], [saveState], [getStats]) only read it. *)

Inductive Op :=
  | OpLoadCollection (collection : PluginCollection)
  | OpUnloadCollection (collectionId : string)
  | OpEnablePlugin (collectionId pluginName : string)
  | OpDisablePlugin (collectionId pluginName : string)
  | OpTogglePlugin (collectionId pluginName : string)
  | OpEnableAll (collectionId : string)
  | OpDisableAll (collectionId : string)
  | OpEnableCategory (cat : PluginCategory)
  | OpDisableCategory (cat : PluginCategory)
  | OpSetPluginSettings (pluginName : string) (settings : Settings)
  | OpUpdatePluginSettings (pluginName : string) (settings : Settings)
  | OpImportState (state : CollectionManagerState).

(** The manager after one call, whether the call returned or threw. *)
Definition run_op (m : Manager) (op : Op) : Manager :=
  match op with
  | OpLoadCollection c => (loadCollection c m).2
  | OpUnloadCollection id => (unloadCollection id m).2
  | OpEnablePlugin c n => (enablePlugin c n m).2
  | OpDisablePlugin c n => (disablePlugin c n m).2
  | OpTogglePlugin c n => (togglePlugin c n m).2
  | OpEnableAll c => (enableAll c m).2
  | OpDisableAll c => (disableAll c m).2
  | OpEnableCategory cat => (enableCategory cat m).2
  | OpDisableCategory cat => (disableCategory cat m).2
  | OpSetPluginSettings n s => setPluginSettings n s m
  | OpUpdatePluginSettings n s => updatePluginSettings n s m
  | OpImportState st => importState st m
  end.

Definition run_ops (m : Manager) (ops : list Op) : Manager :=
  foldl run_op m ops.

End Manager.

Arguments Manager R : clear implicits.
Arguments Async R A : clear implicits.

(** ** A registry to run the manager against

    Modelled from the spec: the plugin registry (../registry/plugin-registry.js
    is not part of the sources).  It keeps the registered descriptors with their
    configuration in registration order; [register] refuses a name that is
    already registered, and [unregister] refuses a plugin that is not registered
    or that another registered plugin declares a dependency on. *)

Definition SimpleRegistry : Type := list (IPlugin * PluginConfig).

Definition simple_getPlugin (name : string) (reg : SimpleRegistry) : option IPlugin :=
  fst <$> List.find (λ pc, String.eqb (metadata_name pc.1) name) reg.

Definition has_dependents (name : string) (reg : SimpleRegistry) : bool :=
  existsb (λ pc, existsb (String.eqb name) (metadata_dependencies pc.1)) reg.

Definition simple_register (p : IPlugin) (config : PluginConfig) (reg : SimpleRegistry)
    : Result unit * SimpleRegistry :=
  match simple_getPlugin (metadata_name p) reg with
  | Some _ => (throw (ExternalError "plugin already registered"), reg)
  | None => (ok tt, (reg ++ [(p, config)])%list)
  end.

Definition simple_unregister (name : string) (reg : SimpleRegistry)
    : Result unit * SimpleRegistry :=
  match simple_getPlugin name reg with
  | None => (throw (ExternalError "plugin not registered"), reg)
  | Some _ =>
      if has_dependents name reg
      then (throw (ExternalError "plugin has dependents"), reg)
      else (ok tt, List.filter (λ pc, negb (String.eqb (metadata_name pc.1) name)) reg)
  end.

#[global] Instance SimpleRegistry_ops : PluginRegistry SimpleRegistry := {
  register := simple_register;
  unregister := simple_unregister;
  getPlugin := simple_getPlugin;
}.

Definition registered_names (reg : SimpleRegistry) : list string :=
  map (λ pc, metadata_name pc.1) reg.

(** The scenario of the specification: collection [core] with [logger]
    (utility, enabled by default) and [tracer] (utility, disabled by default,
    depending on [logger]). *)

Definition logger : IPlugin :=
  {| metadata_name := "logger"; metadata_description := Some "Structured logging";
     metadata_dependencies := [] |}.

Definition tracer : IPlugin :=
  {| metadata_name := "tracer"; metadata_description := None;
     metadata_dependencies := ["logger"] |}.

Definition logger_entry : PluginCollectionEntry :=
  {| plugin := Ready logger; defaultEnabled := true; category := utility;
     tags := None; requiredCapabilities := None; description := None |}.

Definition tracer_entry : PluginCollectionEntry :=
  {| plugin := Deferred (λ _, ok tracer); defaultEnabled := false; category := utility;
     tags := Some ["debug"]; requiredCapabilities := None;
     description := Some "Traces calls" |}.

Definition core : PluginCollection :=
  {| col_id := "core"; col_name := "Core"; col_version := "1.0.0";
     col_categories := None; plugins := [logger_entry; tracer_entry] |}.

Definition fresh : Manager SimpleRegistry := new_manager [] None.

(** [core] loaded into a fresh manager. *)
Definition core_loaded : Manager SimpleRegistry := (loadCollection core fresh).2.

(** [pipeline]: the same two plugins, both enabled by default. *)
Definition tracer_on_entry : PluginCollectionEntry :=
  {| plugin := Ready tracer; defaultEnabled := true; category := utility;
     tags := Some ["debug"]; requiredCapabilities := None;
     description := Some "Traces calls" |}.

Definition pipeline : PluginCollection :=
  {| col_id := "pipeline"; col_name := "Pipeline"; col_version := "1.0.0";
     col_categories := None; plugins := [logger_entry; tracer_on_entry] |}.

Definition pipeline_loaded : Manager SimpleRegistry := (loadCollection pipeline fresh).2.

(** Snapshots as [importState] receives them. *)
Definition snapshot (enabled disabled : gmap string (list string)) : CollectionManagerState :=
  {| st_version := "1.0.0"; st_collections := ["core"];
     st_enabledPlugins := enabled; st_disabledPlugins := disabled;
     st_pluginSettings := ∅ |}.

(** [logger] listed as both enabled and disabled. *)
Definition overlapping_snapshot : CollectionManagerState :=
  snapshot {["core" := ["logger"]]} {["core" := ["logger"]]}.

(** [tracer] enabled and [logger] disabled. *)
Definition consistent_snapshot : CollectionManagerState :=
  snapshot {["core" := ["tracer"]]} {["core" := ["logger"]]}.

(** Only an enabled list for [core], naming [tracer]. *)
Definition tracer_enabled_snapshot : CollectionManagerState :=
  snapshot {["core" := ["tracer"]]} ∅.

(** ** The specification's notions *)

(** Effective enabled state, in the words of the specification:
    explicit-enabled gives true; else explicit-disabled gives false; else the
    entry's default. *)
Definition effective (explicitEnabled explicitDisabled : gset string)
    (name : string) (entryDefault : bool) : bool :=
  if bool_decide (name ∈ explicitEnabled) then true
  else if bool_decide (name ∈ explicitDisabled) then false
  else entryDefault.

(** The override sets of a collection id (none recorded: empty). *)
Definition explicit_enabled {R} (m : Manager R) (collectionId : string) : gset string :=
  default ∅ (enabledOverrides m !! collectionId).

Definition explicit_disabled {R} (m : Manager R) (collectionId : string) : gset string :=
  default ∅ (disabledOverrides m !! collectionId).

Definition effective_in {R} (m : Manager R) (collectionId : string)
    (name : string) (entryDefault : bool) : bool :=
  effective (explicit_enabled m collectionId) (explicit_disabled m collectionId)
            name entryDefault.

(** The entries of all loaded collections in discovery order: collections in
    iteration order, entries in declared order. *)
Definition discovery {R} (m : Manager R) : list (string * PluginCollectionEntry) :=
  '(collectionId, collection) ← collections m;
  entry ← plugins collection;
  [(collectionId, entry)].

(** The effective state of an entry of a loaded collection. *)
Definition entry_effective {R} (m : Manager R) (collectionId : string)
    (entry : PluginCollectionEntry) : bool :=
  match resolve_metadata (VEntry entry) with
  | inr p => effective_in m collectionId (metadata_name p) (defaultEnabled entry)
  | inl _ => false
  end.

(** How many entries are effectively enabled. *)
Definition effective_count {R} (m : Manager R) : Z :=
  Z.of_nat (length (List.filter (λ ce, entry_effective m ce.1 ce.2) (discovery m))).

(** The score of an entry for a query, in the words of the specification:
    case-insensitively, 100 for an exact name match, else 50 for a name
    substring match; plus 25 for a description substring match; plus 30 for a
    tag substring match; plus 20 for a category substring match. *)
Definition score_spec (query : string) (entry : PluginCollectionEntry) (p : IPlugin) : Z :=
  let q := toLowerCase query in
  let name := toLowerCase (metadata_name p) in
  let text :=
    toLowerCase (default (default "" (metadata_description p)) (description entry)) in
  (if bool_decide (name = q) then 100 else if includes name q then 50 else 0)
  + (if includes text q then 25 else 0)
  + (if bool_decide (Exists (λ t, includes (toLowerCase t) q = true)
                            (default [] (tags entry)))
     then 30 else 0)
  + (if includes (toLowerCase (category_string (category entry))) q then 20 else 0).

(** What one turn of the inner loop of [searchPlugins] pushes for a discovered
    entry. *)
Definition search_found {R} (m : Manager R) (queryLower : string)
    (ce : string * PluginCollectionEntry) : list SearchResult :=
  match resolve_metadata (VEntry ce.2) with
  | inr p =>
      if 0 <? search_score queryLower ce.2 p
      then [ {| sr_collectionId := ce.1; sr_entry := ce.2;
                sr_pluginName := metadata_name p;
                sr_enabled := VPromise (isPluginEnabled m ce.1 (VEntry ce.2));
                sr_score := search_score queryLower ce.2 p |} ]
      else []
  | inl _ => []
  end.

(** The part of a search result the specification of the search speaks of:
    which entry, under which name, with which score. *)
Record SearchHit := {
  hit_collectionId : string;
  hit_entry : PluginCollectionEntry;
  hit_pluginName : string;
  hit_score : Z;
}.

Definition hit_of (r : SearchResult) : SearchHit :=
  {| hit_collectionId := sr_collectionId r; hit_entry := sr_entry r;
     hit_pluginName := sr_pluginName r; hit_score := sr_score r |}.

(** What the search should report for one discovered entry: nothing when the
    score is 0. *)
Definition search_candidate (query : string)
    (ce : string * PluginCollectionEntry) : list SearchHit :=
  match resolve_metadata (VEntry ce.2) with
  | inr p =>
      if bool_decide (score_spec query ce.2 p = 0) then []
      else [ {| hit_collectionId := ce.1; hit_entry := ce.2;
                hit_pluginName := metadata_name p;
                hit_score := score_spec query ce.2 p |} ]
  | inl _ => []
  end.

(** The scored entries in discovery order. *)
Definition search_candidates {R} (m : Manager R) (query : string) : list SearchHit :=
  discovery m ≫= search_candidate query.

(** Descending score. *)
Definition by_score_desc (a b : SearchHit) : Prop := hit_score b ≤ hit_score a.

(** The example of the specification's search property: a plugin named
    [auth-provider] (category provider, no tag) and one that mentions [auth]
    only in its description, declared first. *)
Definition session_store_entry : PluginCollectionEntry :=
  {| plugin :=
       Ready {| metadata_name := "session-store";
                metadata_description := Some "Keeps Auth tokens between runs";
                metadata_dependencies := [] |};
     defaultEnabled := true; category := memory;
     tags := Some ["storage"]; requiredCapabilities := Some [cap_filesystem];
     description := None |}.

Definition auth_provider_entry : PluginCollectionEntry :=
  {| plugin :=
       Deferred (λ _, ok {| metadata_name := "auth-provider";
                            metadata_description := None;
                            metadata_dependencies := [] |});
     defaultEnabled := true; category := provider;
     tags := None; requiredCapabilities := Some [cap_network];
     description := Some "Signs requests" |}.

Definition security : PluginCollection :=
  {| col_id := "security"; col_name := "Security"; col_version := "0.3.0";
     col_categories := Some [memory; provider];
     plugins := [session_store_entry; auth_provider_entry] |}.

Definition security_loaded : Manager SimpleRegistry := (loadCollection security core_loaded).2.

(** The invariant of the activation overrides: no name is in both sets of a
    collection id. *)
Definition overrides_disjoint {R} (m : Manager R) : Prop :=
  ∀ collectionId E D,
    enabledOverrides m !! collectionId = Some E →
    disabledOverrides m !! collectionId = Some D →
    E ## D.

(** What a snapshot must satisfy for [importState] to keep the invariant: the
    lists it installs for a collection id are disjoint from each other, and a
    list installed alone is disjoint from the stored set it does not replace. *)
Definition import_ok {R} (m : Manager R) (state : CollectionManagerState) : Prop :=
  map_Forall (λ collectionId (names : list string),
      list_to_set names ##
      default (explicit_disabled m collectionId)
              (list_to_set <$> st_disabledPlugins state !! collectionId))
    (st_enabledPlugins state)
  ∧
  map_Forall (λ collectionId (names : list string),
      default (explicit_enabled m collectionId)
              (list_to_set <$> st_enabledPlugins state !! collectionId)
      ## list_to_set names)
    (st_disabledPlugins state).

#[global] Instance import_ok_dec {R} (m : Manager R) state : Decision (import_ok m state).
Proof. unfold import_ok. apply _. Defined.

Definition op_ok {R} (m : Manager R) (op : Op) : Prop :=
  match op with
  | OpImportState state => import_ok m state
  | _ => True
  end.

#[global] Instance op_ok_dec {R} (m : Manager R) op : Decision (op_ok m op).
Proof. destruct op; simpl; apply _. Defined.

Fixpoint ops_ok {R} `{!PluginRegistry R} (m : Manager R) (ops : list Op) : Prop :=
  match ops with
  | [] => True
  | op :: rest => op_ok m op ∧ ops_ok (run_op m op) rest
  end.

#[global] Instance ops_ok_dec {R} `{!PluginRegistry R} (m : Manager R) ops :
  Decision (ops_ok m ops).
Proof. revert m. induction ops as [|op ops IH]; intros m; simpl; apply _. Defined.

(** A computation keeps a property of the manager, however it ends. *)
Definition preserves {R A} (P : Manager R → Prop) (c : Async R A) : Prop :=
  ∀ m, P m → P (c m).2.

(** A property that does not look at the registry. *)
Definition registry_blind {R} (P : Manager R → Prop) : Prop :=
  ∀ m reg, P m → P (set_registry reg m).

(** ** Snapshots of the manager *)

(** [exportState].  The names of a set are listed by [elements]; the source
    lists them in the order they were added, which the sets of the model do
    not record (nothing that reads a snapshot depends on it). *)
Definition exportState {R} (m : Manager R) : CollectionManagerState :=
  {| st_version := "1.0.0";
     st_collections := (collections m).*1;
     st_enabledPlugins :=
       map_fold (λ collectionId (enabled : gset string) acc,
                   if bool_decide (0 < size enabled)%nat
                   then <[collectionId := elements enabled]> acc
                   else acc)
                ∅ (enabledOverrides m);
     st_disabledPlugins :=
       map_fold (λ collectionId (disabled : gset string) acc,
                   if bool_decide (0 < size disabled)%nat
                   then <[collectionId := elements disabled]> acc
                   else acc)
                ∅ (disabledOverrides m);
     st_pluginSettings :=
       map_fold (λ name settings acc, <[name := settings]> acc)
                ∅ (pluginSettings m) |}.

(** The names of the plugins of a list of entries, as far as they resolve. *)
Definition entry_names (entries : list PluginCollectionEntry) : list string :=
  entries ≫= λ entry,
    match resolve_metadata (VEntry entry) with
    | inr p => [metadata_name p]
    | inl _ => []
    end.

(** Every plugin reference of a list of entries resolves. *)
Definition all_resolve (entries : list PluginCollectionEntry) : Prop :=
  Forall (λ entry, ∃ p, resolve_metadata (VEntry entry) = ok p) entries.

(** A loaded collection has its two override sets. *)
Definition loaded_has_sets {R} (m : Manager R) : Prop :=
  ∀ collectionId collection,
    Map_get collectionId (collections m) = Some collection →
    is_Some (enabledOverrides m !! collectionId)
    ∧ is_Some (disabledOverrides m !! collectionId).

(** The methods that only change the activation overrides. *)
Definition activation_op (op : Op) : bool :=
  match op with
  | OpEnablePlugin _ _ | OpDisablePlugin _ _ | OpTogglePlugin _ _
  | OpEnableAll _ | OpDisableAll _ | OpEnableCategory _ | OpDisableCategory _ => true
  | _ => false
  end.

(** The methods that write plugin settings. *)
Definition settings_op (op : Op) : bool :=
  match op with
  | OpSetPluginSettings _ _ | OpUpdatePluginSettings _ _ | OpImportState _ => true
  | _ => false
  end.

(** The count [getStats] reports for a category. *)
Definition histogram_count (c : PluginCategory) (h : list (PluginCategory * Z)) : Z :=
  match List.find (λ kv, bool_decide (kv.1 = c)) h with
  | Some kv => kv.2
  | None => 0
  end.

(** The loop of [unloadCollection]. *)
Definition unregister_all {R} `{!PluginRegistry R} (entries : list PluginCollectionEntry)
    : Async R unit :=
  for_each entries (λ entry,
    bind (lift (resolve_metadata (VEntry entry))) (λ plugin,
      bind this (λ m,
        if bool_decide (is_Some (getPlugin (metadata_name plugin) (registry m)))
        then try_catch (call_registry (unregister (metadata_name plugin))) (ret tt)
        else ret tt))).

(** The two writes of [enablePlugin], and those of [disablePlugin]. *)
Definition mark_enabled {R} (collectionId pluginName : string) (m : Manager R) : Manager R :=
  set_enabledOverrides (alter (λ s, {[pluginName]} ∪ s) collectionId)
    (set_disabledOverrides (alter (λ s, s ∖ {[pluginName]}) collectionId) m).

Definition mark_disabled {R} (collectionId pluginName : string) (m : Manager R) : Manager R :=
  set_disabledOverrides (alter (λ s, {[pluginName]} ∪ s) collectionId)
    (set_enabledOverrides (alter (λ s, s ∖ {[pluginName]}) collectionId) m).

(** The (collection id, plugin name) pairs of pairs of collection id and
    entry, as far as the plugins resolve. *)
Definition work_marks (work : list (string * PluginCollectionEntry))
    : list (string * string) :=
  work ≫= λ ce,
    match resolve_metadata (VEntry ce.2) with
    | inr p => [(ce.1, metadata_name p)]
    | inl _ => []
    end.

(** Those of the entries of a category. *)
Definition category_marks (cat : PluginCategory)
    (work : list (string * PluginCollectionEntry)) : list (string * string) :=
  work_marks (List.filter (λ ce, bool_decide (category ce.2 = cat)) work).

(** The names among such pairs that belong to one collection id. *)
Definition marked_names (marks : list (string * string)) (collectionId : string)
    : gset string :=
  list_to_set (marks ≫= λ cn, if bool_decide (cn.1 = collectionId) then [cn.2] else []).

(** A collection whose second plugin is a factory that throws. *)
Definition broken_entry : PluginCollectionEntry :=
  {| plugin := Deferred (λ _, throw (ExternalError "factory failed"));
     defaultEnabled := true; category := integration;
     tags := None; requiredCapabilities := None; description := None |}.

Definition flaky : PluginCollection :=
  {| col_id := "flaky"; col_name := "Flaky"; col_version := "0.0.1";
     col_categories := None; plugins := [logger_entry; broken_entry] |}.

Definition flaky_loaded : Manager SimpleRegistry := (loadCollection flaky fresh).2.


(** ** The configuration adapter

    [systemConfigToV3Config] and [v3ConfigToSystemConfig] copy settings between
    the shared system configuration and the configuration of the command line
    tool.  The declarations of the two object types are not part of the
    sources at hand; the records below have the fields the two functions read
    and write.  A field of the system configuration is optional: the adapter
    reads all of them through [?.], [??] and [||], and returns a partial
    configuration.  Numbers are only copied or written as literals, never
    computed with, and hook handlers and providers are only passed along, so
    the development is parametric in the three types; [num] embeds the numeric
    literals of the source. *)

(** [x || d] for an optional string: [undefined] and the empty string are
    falsy, every other string is kept. *)
Definition or_string (x : option string) (d : string) : string :=
  match x with
  | None | Some EmptyString => d
  | Some s => s
  end.

(** [x ? a : b] for an optional boolean: [undefined] is falsy. *)
Definition cond {A} (x : option bool) (a b : A) : A :=
  if default false x then a else b.

Section ConfigAdapter.
Context {Number Handler Provider : Type}.
Variable num : Q → Number.

(** *** The configuration of the command line tool *)

Record V3Agents := {
  agents_defaultType : string;
  agents_autoSpawn : bool;
  agents_maxConcurrent : Number;
  agents_timeout : Number;
  agents_providers : list Provider;
}.

Record V3Swarm := {
  swarm_topology : string;
  swarm_maxAgents : Number;
  swarm_autoScale : bool;
  swarm_coordinationStrategy : string;
  swarm_healthCheckInterval : Number;
}.

Record V3Memory := {
  memory_backend : string;
  memory_persistPath : string;
  memory_cacheSize : Number;
  memory_enableHNSW : bool;
  memory_vectorDimension : Number;
}.

Record V3Mcp := {
  mcp_serverHost : string;
  mcp_serverPort : Number;
  mcp_autoStart : bool;
  mcp_transportType : string;
  mcp_tools : list string;
}.

Record V3Cli := {
  cli_colorOutput : bool;
  cli_interactive : bool;
  cli_verbosity : string;
  cli_outputFormat : string;
  cli_progressStyle : string;
}.

Record V3Hook := {
  hook_name : string;
  hook_event : string;
  hook_handler : Handler;
  hook_priority : Number;
  hook_enabled : bool;
}.

Record V3Hooks := {
  hooks_enabled : bool;
  hooks_autoExecute : bool;
  hooks_hooks : list V3Hook;
}.

Record V3Config := {
  v3_version : string;
  v3_projectRoot : string;
  v3_agents : V3Agents;
  v3_swarm : V3Swarm;
  v3_memory : V3Memory;
  v3_mcp : V3Mcp;
  v3_cli : V3Cli;
  v3_hooks : V3Hooks;
}.

(** *** The system configuration *)

Record LifecycleConfig := {
  lifecycle_autoStart : option bool;
  lifecycle_maxConcurrentAgents : option Number;
  lifecycle_shutdownTimeoutMs : option Number;
  lifecycle_cleanupOrphanedAgents : option bool;
}.

Record SessionConfig := {
  session_dataDir : option string;
  session_persistState : option bool;
  session_stateFile : option string;
}.

Record MonitoringConfig := {
  monitoring_enabled : option bool;
  monitoring_metricsIntervalMs : option Number;
  monitoring_healthCheckIntervalMs : option Number;
}.

Record OrchestratorConfig := {
  orchestrator_lifecycle : option LifecycleConfig;
  orchestrator_session : option SessionConfig;
  orchestrator_monitoring : option MonitoringConfig;
}.

Record AutoScaleConfig := {
  autoScale_enabled : option bool;
  autoScale_minAgents : option Number;
  autoScale_maxAgents : option Number;
  autoScale_scaleUpThreshold : option Number;
  autoScale_scaleDownThreshold : option Number;
}.

Record RetryPolicy := {
  retryPolicy_maxRetries : option Number;
  retryPolicy_backoffMs : option Number;
}.

Record CoordinationConfig := {
  coordination_consensusRequired : option bool;
  coordination_timeoutMs : option Number;
  coordination_retryPolicy : option RetryPolicy;
}.

Record CommunicationConfig := {
  communication_protocol : option string;
  communication_batchSize : option Number;
  communication_flushIntervalMs : option Number;
}.

Record SwarmConfig := {
  sys_swarm_topology : option string;
  sys_swarm_maxAgents : option Number;
  sys_swarm_autoScale : option AutoScaleConfig;
  sys_swarm_coordination : option CoordinationConfig;
  sys_swarm_communication : option CommunicationConfig;
}.

Record AgentDbConfig := {
  agentdb_dimensions : option Number;
  agentdb_indexType : option string;
  agentdb_efConstruction : option Number;
  agentdb_m : option Number;
  agentdb_quantization : option string;
}.

Record MemoryConfig := {
  sys_memory_type : option string;
  sys_memory_path : option string;
  sys_memory_maxSize : option Number;
  sys_memory_agentdb : option AgentDbConfig;
}.

Record TransportConfig := {
  transport_type : option string;
  transport_host : option string;
  transport_port : option Number;
}.

Record RateLimitingConfig := {
  rateLimiting_enabled : option bool;
  rateLimiting_maxRequestsPerMinute : option Number;
}.

Record SecurityConfig := {
  security_requireAuth : option bool;
  security_allowedOrigins : option (list string);
  security_rateLimiting : option RateLimitingConfig;
}.

Record McpConfig := {
  sys_mcp_enabled : option bool;
  sys_mcp_transport : option TransportConfig;
  sys_mcp_enabledTools : option (list string);
  sys_mcp_security : option SecurityConfig;
}.

Record LoggingConfig := {
  logging_level : option string;
  logging_pretty : option bool;
  logging_destination : option string;
  logging_format : option string;
}.

(** A hook definition: [name], [event] and [handler] are read unguarded,
    [priority] and [enabled] through [??]. *)
Record HookDefinition := {
  definition_name : string;
  definition_event : string;
  definition_handler : Handler;
  definition_priority : option Number;
  definition_enabled : option bool;
}.

Record HooksConfig := {
  sys_hooks_enabled : option bool;
  sys_hooks_autoExecute : option bool;
  sys_hooks_definitions : option (list HookDefinition);
}.

Record SystemConfig := {
  sys_orchestrator : option OrchestratorConfig;
  sys_swarm : option SwarmConfig;
  sys_memory : option MemoryConfig;
  sys_mcp : option McpConfig;
  sys_logging : option LoggingConfig;
  sys_hooks : option HooksConfig;
}.

(** [systemConfigToV3Config]; [cwd] is the value of [process.cwd()]. *)
Definition systemConfigToV3Config (cwd : string) (systemConfig : SystemConfig)
    : V3Config :=
  {| v3_version := "3.0.0";
     v3_projectRoot :=
       or_string ((sys_orchestrator systemConfig ≫= orchestrator_session)
                    ≫= session_dataDir) cwd;
     v3_agents :=
       {| agents_defaultType := "coder";
          agents_autoSpawn :=
            default false ((sys_orchestrator systemConfig ≫= orchestrator_lifecycle)
                             ≫= lifecycle_autoStart);
          agents_maxConcurrent :=
            default (num 15%Q) ((sys_orchestrator systemConfig ≫= orchestrator_lifecycle)
                                ≫= lifecycle_maxConcurrentAgents);
          agents_timeout := num 300000%Q%Q;
          agents_providers := [] |};
     v3_swarm :=
       {| swarm_topology :=
            or_string (sys_swarm systemConfig ≫= sys_swarm_topology)
                      "hierarchical-mesh";
          swarm_maxAgents :=
            default (num 15%Q) (sys_swarm systemConfig ≫= sys_swarm_maxAgents);
          swarm_autoScale :=
            default false ((sys_swarm systemConfig ≫= sys_swarm_autoScale)
                             ≫= autoScale_enabled);
          swarm_coordinationStrategy :=
            cond ((sys_swarm systemConfig ≫= sys_swarm_coordination)
                    ≫= coordination_consensusRequired)
                 "consensus" "leader";
          swarm_healthCheckInterval :=
            default (num 10000%Q) ((sys_swarm systemConfig ≫= sys_swarm_coordination)
                                   ≫= coordination_timeoutMs) |};
     v3_memory :=
       {| memory_backend :=
            or_string (sys_memory systemConfig ≫= sys_memory_type) "hybrid";
          memory_persistPath :=
            or_string (sys_memory systemConfig ≫= sys_memory_path) "./data/memory";
          memory_cacheSize :=
            default (num 1000000%Q) (sys_memory systemConfig ≫= sys_memory_maxSize);
          memory_enableHNSW :=
            bool_decide ((sys_memory systemConfig ≫= sys_memory_agentdb)
                           ≫= agentdb_indexType = Some "hnsw");
          memory_vectorDimension :=
            default (num 1536%Q) ((sys_memory systemConfig ≫= sys_memory_agentdb)
                                  ≫= agentdb_dimensions) |};
     v3_mcp :=
       {| mcp_serverHost :=
            or_string ((sys_mcp systemConfig ≫= sys_mcp_transport) ≫= transport_host)
                      "localhost";
          mcp_serverPort :=
            default (num 3000%Q) ((sys_mcp systemConfig ≫= sys_mcp_transport)
                                  ≫= transport_port);
          mcp_autoStart := default false (sys_mcp systemConfig ≫= sys_mcp_enabled);
          mcp_transportType :=
            or_string ((sys_mcp systemConfig ≫= sys_mcp_transport) ≫= transport_type)
                      "stdio";
          mcp_tools := default [] (sys_mcp systemConfig ≫= sys_mcp_enabledTools) |};
     v3_cli :=
       {| cli_colorOutput :=
            default true (sys_logging systemConfig ≫= logging_pretty);
          cli_interactive := true;
          cli_verbosity :=
            or_string (sys_logging systemConfig ≫= logging_level) "normal";
          cli_outputFormat := "text";
          cli_progressStyle := "spinner" |};
     v3_hooks :=
       {| hooks_enabled := default false (sys_hooks systemConfig ≫= sys_hooks_enabled);
          hooks_autoExecute :=
            default false (sys_hooks systemConfig ≫= sys_hooks_autoExecute);
          hooks_hooks :=
            map (λ hook,
                   {| hook_name := definition_name hook;
                      hook_event := definition_event hook;
                      hook_handler := definition_handler hook;
                      hook_priority := default (num 50%Q) (definition_priority hook);
                      hook_enabled := default true (definition_enabled hook) |})
                (default [] (sys_hooks systemConfig ≫= sys_hooks_definitions)) |} |}.

(** [v3ConfigToSystemConfig]. *)
Definition v3ConfigToSystemConfig (v3Config : V3Config) : SystemConfig :=
  {| sys_orchestrator := Some
       {| orchestrator_lifecycle := Some
            {| lifecycle_autoStart := Some (agents_autoSpawn (v3_agents v3Config));
               lifecycle_maxConcurrentAgents :=
                 Some (agents_maxConcurrent (v3_agents v3Config));
               lifecycle_shutdownTimeoutMs :=
                 Some (agents_timeout (v3_agents v3Config));
               lifecycle_cleanupOrphanedAgents := Some true |};
          orchestrator_session := Some
            {| session_dataDir := Some (v3_projectRoot v3Config);
               session_persistState := Some true;
               session_stateFile := Some "session.json" |};
          orchestrator_monitoring := Some
            {| monitoring_enabled := Some true;
               monitoring_metricsIntervalMs := Some (num 5000%Q);
               monitoring_healthCheckIntervalMs :=
                 Some (swarm_healthCheckInterval (v3_swarm v3Config)) |} |};
     sys_swarm := Some
       {| sys_swarm_topology := Some (swarm_topology (v3_swarm v3Config));
          sys_swarm_maxAgents := Some (swarm_maxAgents (v3_swarm v3Config));
          sys_swarm_autoScale := Some
            {| autoScale_enabled := Some (swarm_autoScale (v3_swarm v3Config));
               autoScale_minAgents := Some (num 1%Q);
               autoScale_maxAgents := Some (swarm_maxAgents (v3_swarm v3Config));
               autoScale_scaleUpThreshold := Some (num 0.8%Q);
               autoScale_scaleDownThreshold := Some (num 0.3%Q) |};
          sys_swarm_coordination := Some
            {| coordination_consensusRequired :=
                 Some (bool_decide
                         (swarm_coordinationStrategy (v3_swarm v3Config) = "consensus"));
               coordination_timeoutMs :=
                 Some (swarm_healthCheckInterval (v3_swarm v3Config));
               coordination_retryPolicy := Some
                 {| retryPolicy_maxRetries := Some (num 3%Q);
                    retryPolicy_backoffMs := Some (num 500%Q) |} |};
          sys_swarm_communication := Some
            {| communication_protocol := Some "events";
               communication_batchSize := Some (num 10%Q);
               communication_flushIntervalMs := Some (num 100%Q) |} |};
     sys_memory := Some
       {| sys_memory_type := Some (memory_backend (v3_memory v3Config));
          sys_memory_path := Some (memory_persistPath (v3_memory v3Config));
          sys_memory_maxSize := Some (memory_cacheSize (v3_memory v3Config));
          sys_memory_agentdb := Some
            {| agentdb_dimensions := Some (memory_vectorDimension (v3_memory v3Config));
               agentdb_indexType :=
                 Some (if memory_enableHNSW (v3_memory v3Config)
                       then "hnsw" else "flat");
               agentdb_efConstruction := Some (num 200%Q);
               agentdb_m := Some (num 16%Q);
               agentdb_quantization := Some "none" |} |};
     sys_mcp := Some
       {| sys_mcp_enabled := Some (mcp_autoStart (v3_mcp v3Config));
          sys_mcp_transport := Some
            {| transport_type := Some (mcp_transportType (v3_mcp v3Config));
               transport_host := Some (mcp_serverHost (v3_mcp v3Config));
               transport_port := Some (mcp_serverPort (v3_mcp v3Config)) |};
          sys_mcp_enabledTools := Some (mcp_tools (v3_mcp v3Config));
          sys_mcp_security := Some
            {| security_requireAuth := Some false;
               security_allowedOrigins := Some ["*"];
               security_rateLimiting := Some
                 {| rateLimiting_enabled := Some true;
                    rateLimiting_maxRequestsPerMinute := Some (num 100%Q) |} |} |};
     sys_logging := Some
       {| logging_level := Some (cli_verbosity (v3_cli v3Config));
          logging_pretty := Some (cli_colorOutput (v3_cli v3Config));
          logging_destination := Some "console";
          logging_format := Some "text" |};
     sys_hooks := Some
       {| sys_hooks_enabled := Some (hooks_enabled (v3_hooks v3Config));
          sys_hooks_autoExecute := Some (hooks_autoExecute (v3_hooks v3Config));
          sys_hooks_definitions := Some
            (map (λ hook,
                    {| definition_name := hook_name hook;
                       definition_event := hook_event hook;
                       definition_handler := hook_handler hook;
                       definition_priority := Some (hook_priority hook);
                       definition_enabled := Some (hook_enabled hook) |})
                 (hooks_hooks (v3_hooks v3Config))) |} |}.

(** The configurations of the command line tool that the adapter itself
    produces: the constants it writes are in place, no string setting is
    empty and the coordination strategy is one of the two it knows. *)
Definition v3_canonical (cwd : string) (v : V3Config) : Prop :=
  v3_version v = "3.0.0"
  ∧ (v3_projectRoot v ≠ "" ∨ cwd = "")
  ∧ agents_defaultType (v3_agents v) = "coder"
  ∧ agents_timeout (v3_agents v) = num 300000%Q
  ∧ agents_providers (v3_agents v) = []
  ∧ swarm_topology (v3_swarm v) ≠ ""
  ∧ (swarm_coordinationStrategy (v3_swarm v) = "consensus"
     ∨ swarm_coordinationStrategy (v3_swarm v) = "leader")
  ∧ memory_backend (v3_memory v) ≠ ""
  ∧ memory_persistPath (v3_memory v) ≠ ""
  ∧ mcp_serverHost (v3_mcp v) ≠ ""
  ∧ mcp_transportType (v3_mcp v) ≠ ""
  ∧ cli_interactive (v3_cli v) = true
  ∧ cli_verbosity (v3_cli v) ≠ ""
  ∧ cli_outputFormat (v3_cli v) = "text"
  ∧ cli_progressStyle (v3_cli v) = "spinner".

End ConfigAdapter.

Arguments V3Config : clear implicits.
Arguments SystemConfig : clear implicits.
Arguments V3Hook : clear implicits.
Arguments HookDefinition : clear implicits.

(** A system configuration that names a session directory, a consensus
    swarm and one hook; numbers are rationals, handlers and providers
    strings. *)
Definition team_config : SystemConfig Q string :=
  {| sys_orchestrator := Some
       {| orchestrator_lifecycle := None;
          orchestrator_session := Some
            {| session_dataDir := Some "/srv/flow";
               session_persistState := None; session_stateFile := None |};
          orchestrator_monitoring := None |};
     sys_swarm := Some
       {| sys_swarm_topology := Some "";
          sys_swarm_maxAgents := Some (0%Q);
          sys_swarm_autoScale := None;
          sys_swarm_coordination := Some
            {| coordination_consensusRequired := Some true;
               coordination_timeoutMs := None;
               coordination_retryPolicy := None |};
          sys_swarm_communication := None |};
     sys_memory := None;
     sys_mcp := None;
     sys_logging := None;
     sys_hooks := Some
       {| sys_hooks_enabled := Some true;
          sys_hooks_autoExecute := None;
          sys_hooks_definitions := Some
            [ {| definition_name := "format"; definition_event := "post-edit";
                 definition_handler := "./hooks/format.js";
                 definition_priority := None; definition_enabled := Some false |} ] |} |}.

Definition team_v3 : V3Config Q string string :=
  systemConfigToV3Config (λ q, q) "/home/dev" team_config.

(** ** Properties of the helpers *)

Section Helpers.
Context {R : Type} `{!PluginRegistry R}.
Implicit Types (m : Manager R) (entry : PluginCollectionEntry).

(** An un-awaited promise has no [plugin] property, so resolving "its plugin"
    gives [undefined], and reading [.metadata] of that throws. *)
Lemma resolve_metadata_promise (o : Outcome) :
  resolve_metadata (VPromise o) = throw TypeError.
Proof. reflexivity. Qed.

Lemma truthy_promise (o : Outcome) : truthy (VPromise o) = true.
Proof. reflexivity. Qed.

(** On a real entry, the promise of [isPluginEnabled] is fulfilled with the
    effective state of the specification. *)
Lemma isPluginEnabled_entry m collectionId entry p :
  resolve_metadata (VEntry entry) = ok p →
  isPluginEnabled m collectionId (VEntry entry)
  = Fulfilled (VBool (effective_in m collectionId (metadata_name p) (defaultEnabled entry))).
Proof.
  intros Hp. unfold isPluginEnabled, effective_in, effective, explicit_enabled,
    explicit_disabled, optional_has.
  rewrite Hp. simpl.
  destruct (enabledOverrides m !! collectionId) as [E|];
    destruct (disabledOverrides m !! collectionId) as [D|]; simpl;
    repeat case_bool_decide; try done; set_solver.
Qed.

(** With a promise in place of the entry, it is rejected. *)
Lemma isPluginEnabled_promise m collectionId (o : Outcome) :
  isPluginEnabled m collectionId (VPromise o) = Rejected TypeError.
Proof. reflexivity. Qed.

(** [isEnabled] on a loaded collection, for any name. *)
Lemma isEnabled_loaded m collectionId collection pluginName :
  Map_get collectionId (collections m) = Some collection →
  isEnabled m collectionId pluginName = VPromise (Rejected TypeError).
Proof. intros Hc. unfold isEnabled. rewrite Hc. reflexivity. Qed.

Lemma isEnabled_not_loaded m collectionId pluginName :
  Map_get collectionId (collections m) = None →
  isEnabled m collectionId pluginName = VBool false.
Proof. intros Hc. unfold isEnabled. by rewrite Hc. Qed.

(** [enablePlugin] and [disablePlugin] on a loaded collection: the override
    sets are written, then the method throws before it reaches the registry. *)
Lemma enablePlugin_loaded m collectionId collection pluginName :
  Map_get collectionId (collections m) = Some collection →
  enablePlugin collectionId pluginName m
  = (throw TypeError,
     set_enabledOverrides (alter (λ s, {[pluginName]} ∪ s) collectionId)
       (set_disabledOverrides (alter (λ s, s ∖ {[pluginName]}) collectionId) m)).
Proof. intros Hc. unfold enablePlugin, bind, this. simpl. rewrite Hc. reflexivity. Qed.

Lemma disablePlugin_loaded m collectionId collection pluginName :
  Map_get collectionId (collections m) = Some collection →
  disablePlugin collectionId pluginName m
  = (throw TypeError,
     set_disabledOverrides (alter (λ s, {[pluginName]} ∪ s) collectionId)
       (set_enabledOverrides (alter (λ s, s ∖ {[pluginName]}) collectionId) m)).
Proof. intros Hc. unfold disablePlugin, bind, this. simpl. rewrite Hc. reflexivity. Qed.

Lemma enablePlugin_not_loaded m collectionId pluginName :
  Map_get collectionId (collections m) = None →
  enablePlugin collectionId pluginName m = (throw (CollectionNotFound collectionId), m).
Proof. intros Hc. unfold enablePlugin, bind, this. simpl. by rewrite Hc. Qed.

Lemma disablePlugin_not_loaded m collectionId pluginName :
  Map_get collectionId (collections m) = None →
  disablePlugin collectionId pluginName m = (throw (CollectionNotFound collectionId), m).
Proof. intros Hc. unfold disablePlugin, bind, this. simpl. by rewrite Hc. Qed.

Lemma togglePlugin_loaded m collectionId collection pluginName :
  Map_get collectionId (collections m) = Some collection →
  togglePlugin collectionId pluginName m
  = (throw TypeError, (disablePlugin collectionId pluginName m).2).
Proof.
  intros Hc. unfold togglePlugin, bind at 1, this. simpl.
  rewrite (isEnabled_loaded _ _ _ _ Hc). simpl.
  unfold bind. by rewrite (disablePlugin_loaded _ _ _ _ Hc).
Qed.

Lemma togglePlugin_not_loaded m collectionId pluginName :
  Map_get collectionId (collections m) = None →
  togglePlugin collectionId pluginName m = (throw (CollectionNotFound collectionId), m).
Proof.
  intros Hc. unfold togglePlugin, bind at 1, this. simpl.
  rewrite (isEnabled_not_loaded _ _ _ Hc). simpl.
  unfold bind. by rewrite (enablePlugin_not_loaded _ _ _ Hc).
Qed.

(** Consequently no call of the three activation methods returns normally,
    and none of them reaches the registry. *)
Lemma enablePlugin_always_throws m collectionId pluginName :
  ∃ e, (enablePlugin collectionId pluginName m).1 = throw e
       ∧ registry (enablePlugin collectionId pluginName m).2 = registry m.
Proof.
  destruct (Map_get collectionId (collections m)) as [col|] eqn:Hc.
  - rewrite (enablePlugin_loaded _ _ _ _ Hc). by exists TypeError.
  - rewrite (enablePlugin_not_loaded _ _ _ Hc). by eexists.
Qed.

Lemma disablePlugin_always_throws m collectionId pluginName :
  ∃ e, (disablePlugin collectionId pluginName m).1 = throw e
       ∧ registry (disablePlugin collectionId pluginName m).2 = registry m.
Proof.
  destruct (Map_get collectionId (collections m)) as [col|] eqn:Hc.
  - rewrite (disablePlugin_loaded _ _ _ _ Hc). by exists TypeError.
  - rewrite (disablePlugin_not_loaded _ _ _ Hc). by eexists.
Qed.

Lemma togglePlugin_always_throws m collectionId pluginName :
  ∃ e, (togglePlugin collectionId pluginName m).1 = throw e
       ∧ registry (togglePlugin collectionId pluginName m).2 = registry m.
Proof.
  destruct (Map_get collectionId (collections m)) as [col|] eqn:Hc.
  - rewrite (togglePlugin_loaded _ _ _ _ Hc). exists TypeError. split; [done|].
    simpl. by rewrite (disablePlugin_loaded _ _ _ _ Hc).
  - rewrite (togglePlugin_not_loaded _ _ _ Hc). by eexists.
Qed.

End Helpers.

(** Run-time library: a few evaluations. *)
Example toLowerCase_mixed : toLowerCase "Auth-Provider_9" = "auth-provider_9".
Proof. reflexivity. Qed.

Example includes_middle : includes "auth-provider" "h-pro" = true.
Proof. reflexivity. Qed.

Example includes_empty : includes "" "" = true ∧ includes "abc" "" = true.
Proof. split; reflexivity. Qed.

Example includes_absent : includes "provider" "auth" = false.
Proof. reflexivity. Qed.

(** Equal keys keep their order, larger keys come first. *)
Example Array_sort_is_stable :
  Array_sort (λ a b : string * Z, b.2 - a.2)
    [("a", 25); ("b", 50); ("c", 25); ("d", 100); ("e", 50)]
  = [("d", 100); ("b", 50); ("e", 50); ("a", 25); ("c", 25)].
Proof. reflexivity. Qed.

Example Map_set_keeps_position :
  Map_set "b" 9 [("a", 1); ("b", 2); ("c", 3)] = [("a", 1); ("b", 9); ("c", 3)]
  ∧ Map_set "d" 4 [("a", 1); ("b", 2)] = [("a", 1); ("b", 2); ("d", 4)].
Proof. split; reflexivity. Qed.

(** ** What the methods leave untouched *)

Section Preservation.
Context {R : Type} `{!PluginRegistry R}.
Implicit Types (m : Manager R) (P : Manager R → Prop).

Lemma preserves_ret {A} P (a : A) : preserves P (ret a).
Proof. by intros m. Qed.

Lemma preserves_raise {A} P e : preserves P (raise (A:=A) e).
Proof. by intros m. Qed.

Lemma preserves_lift {A} P (r : Result A) : preserves P (lift r).
Proof. by intros m. Qed.

Lemma preserves_this P : preserves P this.
Proof. by intros m. Qed.

Lemma preserves_modify P f : (∀ m, P m → P (f m)) → preserves P (modify f).
Proof. intros Hf m. apply Hf. Qed.

Lemma preserves_bind {A B} P (c : Async R A) (k : A → Async R B) :
  preserves P c → (∀ a, preserves P (k a)) → preserves P (bind c k).
Proof.
  intros Hc Hk m Hm. unfold bind. specialize (Hc m Hm).
  destruct (c m) as [[e|a] m']; simpl in *; [done|]. by apply Hk.
Qed.

Lemma preserves_try_catch {A} P (c h : Async R A) :
  preserves P c → preserves P h → preserves P (try_catch c h).
Proof.
  intros Hc Hh m Hm. unfold try_catch. specialize (Hc m Hm).
  destruct (c m) as [[e|a] m']; simpl in *; [by apply Hh|done].
Qed.

Lemma preserves_call_registry {A} P (f : R → Result A * R) :
  registry_blind P → preserves P (call_registry f).
Proof.
  intros Hb m Hm. unfold call_registry.
  destruct (f (registry m)) as [r reg]. by apply Hb.
Qed.

Lemma preserves_for_each {A} P (l : list A) (body : A → Async R unit) :
  (∀ x, preserves P (body x)) → preserves P (for_each l body).
Proof.
  intros Hbody. induction l as [|x l IH]; simpl.
  - apply preserves_ret.
  - apply preserves_bind; [apply Hbody | by intros _].
Qed.

Lemma preserves_registerPlugin P (entry : Value) :
  registry_blind P → preserves P (registerPlugin entry).
Proof.
  intros Hb. unfold registerPlugin.
  apply preserves_bind; [apply preserves_lift|]. intros plugin.
  apply preserves_bind; [apply preserves_this|]. intros m.
  by apply preserves_call_registry.
Qed.

(** The loop of [loadCollection] only talks to the registry. *)
Lemma preserves_load_loop P collectionId (entries : list PluginCollectionEntry) :
  registry_blind P →
  preserves P
    (for_each entries (λ entry,
       bind this (λ m,
         if truthy (VPromise (isPluginEnabled m collectionId (VEntry entry)))
         then registerPlugin (VEntry entry)
         else ret tt))).
Proof.
  intros Hb. apply preserves_for_each. intros entry.
  apply preserves_bind; [apply preserves_this|]. intros m. simpl.
  by apply preserves_registerPlugin.
Qed.

(** The loop of [unloadCollection] likewise. *)
Lemma preserves_unload_loop P (entries : list PluginCollectionEntry) :
  registry_blind P →
  preserves P
    (for_each entries (λ entry,
       bind (lift (resolve_metadata (VEntry entry))) (λ plugin,
         bind this (λ m,
           if bool_decide (is_Some (getPlugin (metadata_name plugin) (registry m)))
           then try_catch (call_registry (unregister (metadata_name plugin))) (ret tt)
           else ret tt)))).
Proof.
  intros Hb. apply preserves_for_each. intros entry.
  apply preserves_bind; [apply preserves_lift|]. intros plugin.
  apply preserves_bind; [apply preserves_this|]. intros m.
  case_bool_decide; [|apply preserves_ret].
  apply preserves_try_catch; [by apply preserves_call_registry | apply preserves_ret].
Qed.

End Preservation.

(** ** The override sets stay disjoint *)

Section OverridesDisjoint.
Context {R : Type} `{!PluginRegistry R}.
Implicit Types (m : Manager R).

Lemma overrides_disjoint_blind : registry_blind (overrides_disjoint (R:=R)).
Proof. intros m reg Hm. exact Hm. Qed.

Lemma overrides_disjoint_new (reg : R) auto : overrides_disjoint (new_manager reg auto).
Proof. intros c E D HE. simpl in HE. by rewrite lookup_empty in HE. Qed.

(** Moving a name from one set of a collection id to the other. *)
Lemma overrides_disjoint_move (en di : gmap string (gset string)) c n :
  (∀ c' E D, en !! c' = Some E → di !! c' = Some D → E ## D) →
  ∀ c' E D,
    alter (λ s, {[n]} ∪ s) c en !! c' = Some E →
    alter (λ s, s ∖ {[n]}) c di !! c' = Some D →
    E ## D.
Proof.
  intros Hinv c' E D. rewrite !lookup_alter.
  case_decide as Hc; simpl.
  - subst c'.
    destruct (en !! c) as [E0|] eqn:HE0; [|done].
    destruct (di !! c) as [D0|] eqn:HD0; [|done].
    simpl. intros HE HD. simplify_eq. specialize (Hinv c E0 D0 HE0 HD0).
    rewrite elem_of_disjoint in Hinv. apply elem_of_disjoint. intros x.
    rewrite elem_of_union, elem_of_difference, elem_of_singleton.
    intros [Hx|Hx] [HxD Hne]; [done | by apply (Hinv x)].
  - intros HE HD. by apply (Hinv c').
Qed.

Lemma overrides_disjoint_enable m c n :
  overrides_disjoint m →
  overrides_disjoint
    (set_enabledOverrides (alter (λ s, {[n]} ∪ s) c)
       (set_disabledOverrides (alter (λ s, s ∖ {[n]}) c) m)).
Proof.
  intros Hm c' E D; simpl. by apply overrides_disjoint_move.
Qed.

Lemma overrides_disjoint_disable m c n :
  overrides_disjoint m →
  overrides_disjoint
    (set_disabledOverrides (alter (λ s, {[n]} ∪ s) c)
       (set_enabledOverrides (alter (λ s, s ∖ {[n]}) c) m)).
Proof.
  intros Hm c' E D; simpl. intros HE HD. symmetry. revert HD HE.
  apply overrides_disjoint_move. intros c'' D' E' HD' HE'. symmetry. by apply (Hm c'').
Qed.

Lemma enablePlugin_disjoint c n : preserves overrides_disjoint (enablePlugin (R:=R) c n).
Proof.
  intros m Hm. destruct (Map_get c (collections m)) as [col|] eqn:Hc.
  - rewrite (enablePlugin_loaded _ _ _ _ Hc). by apply overrides_disjoint_enable.
  - by rewrite (enablePlugin_not_loaded _ _ _ Hc).
Qed.

Lemma disablePlugin_disjoint c n : preserves overrides_disjoint (disablePlugin (R:=R) c n).
Proof.
  intros m Hm. destruct (Map_get c (collections m)) as [col|] eqn:Hc.
  - rewrite (disablePlugin_loaded _ _ _ _ Hc). by apply overrides_disjoint_disable.
  - by rewrite (disablePlugin_not_loaded _ _ _ Hc).
Qed.

Lemma togglePlugin_disjoint c n : preserves overrides_disjoint (togglePlugin (R:=R) c n).
Proof.
  intros m Hm. destruct (Map_get c (collections m)) as [col|] eqn:Hc.
  - rewrite (togglePlugin_loaded _ _ _ _ Hc). simpl. by apply disablePlugin_disjoint.
  - by rewrite (togglePlugin_not_loaded _ _ _ Hc).
Qed.

Lemma loadCollection_disjoint col : preserves overrides_disjoint (loadCollection (R:=R) col).
Proof.
  unfold loadCollection.
  apply preserves_bind; [apply preserves_this|]. intros m0.
  destruct (Map_has _ _); [apply preserves_raise|].
  apply preserves_bind; [by apply preserves_modify|]. intros _.
  apply preserves_bind.
  { apply preserves_modify. intros m Hm c E D; simpl.
    rewrite lookup_insert. case_decide; [|by apply (Hm c)].
    intros ? ?. simplify_eq. set_solver. }
  intros _. apply preserves_bind.
  { apply preserves_modify. intros m Hm c E D; simpl.
    rewrite lookup_insert. case_decide; [|by apply (Hm c)].
    intros ? ?. simplify_eq. set_solver. }
  intros _. apply preserves_load_loop, overrides_disjoint_blind.
Qed.

Lemma unloadCollection_disjoint c : preserves overrides_disjoint (unloadCollection (R:=R) c).
Proof.
  unfold unloadCollection.
  apply preserves_bind; [apply preserves_this|]. intros m0.
  destruct (Map_get _ _) as [col|]; [|apply preserves_raise].
  apply preserves_bind;
    [apply preserves_unload_loop, overrides_disjoint_blind|]. intros _.
  apply preserves_bind; [by apply preserves_modify|]. intros _.
  intros m Hm. unfold bind, modify. simpl.
  intros c' E D; simpl. rewrite !lookup_delete. case_decide; [done|].
  by apply (Hm c').
Qed.

Lemma enableAll_disjoint c : preserves overrides_disjoint (enableAll (R:=R) c).
Proof.
  unfold enableAll.
  apply preserves_bind; [apply preserves_this|]. intros m0.
  destruct (Map_get _ _) as [col|]; [|apply preserves_raise].
  apply preserves_for_each. intros entry.
  apply preserves_bind; [apply preserves_lift|]. intros plugin.
  apply enablePlugin_disjoint.
Qed.

Lemma disableAll_disjoint c : preserves overrides_disjoint (disableAll (R:=R) c).
Proof.
  unfold disableAll.
  apply preserves_bind; [apply preserves_this|]. intros m0.
  destruct (Map_get _ _) as [col|]; [|apply preserves_raise].
  apply preserves_for_each. intros entry.
  apply preserves_bind; [apply preserves_lift|]. intros plugin.
  apply preserves_try_catch; [apply disablePlugin_disjoint | apply preserves_ret].
Qed.

Lemma enableCategory_disjoint cat : preserves overrides_disjoint (enableCategory (R:=R) cat).
Proof.
  unfold enableCategory.
  apply preserves_bind; [apply preserves_this|]. intros m0.
  apply preserves_for_each. intros [c col].
  apply preserves_for_each. intros entry.
  case_bool_decide; [|apply preserves_ret].
  apply preserves_bind; [apply preserves_lift|]. intros plugin.
  apply preserves_try_catch; [apply enablePlugin_disjoint | apply preserves_ret].
Qed.

Lemma disableCategory_disjoint cat : preserves overrides_disjoint (disableCategory (R:=R) cat).
Proof.
  unfold disableCategory.
  apply preserves_bind; [apply preserves_this|]. intros m0.
  apply preserves_for_each. intros [c col].
  apply preserves_for_each. intros entry.
  case_bool_decide; [|apply preserves_ret].
  apply preserves_bind; [apply preserves_lift|]. intros plugin.
  apply preserves_try_catch; [apply disablePlugin_disjoint | apply preserves_ret].
Qed.

(** The loop of [importState] installs the snapshot over what is stored. *)
Lemma map_fold_install {A B} (f : A → B) (stored : gmap string B) (given : gmap string A) :
  map_fold (λ k v acc, <[k := f v]> acc) stored given = (f <$> given) ∪ stored.
Proof.
  apply (map_fold_weak_ind (λ r s, r = (f <$> s) ∪ stored)).
  - by rewrite fmap_empty, (left_id_L ∅ (∪)).
  - intros i x s r _ ->. by rewrite fmap_insert, insert_union_l.
Qed.

Lemma import_lookup (stored : gmap string (gset string)) (given : gmap string (list string)) c :
  map_fold (λ k v acc, <[k := list_to_set v]> acc) stored given !! c
  = match given !! c with
    | Some names => Some (list_to_set names)
    | None => stored !! c
    end.
Proof.
  rewrite map_fold_install, lookup_union, lookup_fmap.
  destruct (given !! c) as [l|]; simpl.
  - by destruct (stored !! c).
  - by rewrite (left_id None _).
Qed.

Lemma importState_disjoint m state :
  overrides_disjoint m → import_ok m state → overrides_disjoint (importState state m).
Proof.
  intros Hm [HokE HokD] c E D; simpl. rewrite !import_lookup.
  destruct (st_enabledPlugins state !! c) as [le|] eqn:HsE;
    destruct (st_disabledPlugins state !! c) as [ld|] eqn:HsD.
  - intros ? ?; simplify_eq. specialize (HokE c le HsE). simpl in HokE.
    by rewrite HsD in HokE.
  - intros ? HD; simplify_eq. specialize (HokE c le HsE). simpl in HokE.
    rewrite HsD in HokE. simpl in HokE. unfold explicit_disabled in HokE.
    by rewrite HD in HokE.
  - intros HE ?; simplify_eq. specialize (HokD c ld HsD). simpl in HokD.
    rewrite HsE in HokD. simpl in HokD. unfold explicit_enabled in HokD.
    by rewrite HE in HokD.
  - apply Hm.
Qed.

Lemma run_op_disjoint m op :
  overrides_disjoint m → op_ok m op → overrides_disjoint (run_op m op).
Proof.
  intros Hm Hok. destruct op; simpl.
  - by apply loadCollection_disjoint.
  - by apply unloadCollection_disjoint.
  - by apply enablePlugin_disjoint.
  - by apply disablePlugin_disjoint.
  - by apply togglePlugin_disjoint.
  - by apply enableAll_disjoint.
  - by apply disableAll_disjoint.
  - by apply enableCategory_disjoint.
  - by apply disableCategory_disjoint.
  - exact Hm.
  - exact Hm.
  - by apply importState_disjoint.
Qed.

Lemma run_ops_disjoint ops : ∀ m,
  overrides_disjoint m → ops_ok m ops → overrides_disjoint (run_ops m ops).
Proof.
  induction ops as [|op ops IH]; intros m Hm Hok; [done|].
  destruct Hok as [Hop Hrest]. simpl. apply IH; [by apply run_op_disjoint | done].
Qed.

End OverridesDisjoint.

(** ** The claims of the specification *)

(** C2, as stated, fails: [importState] installs the lists of the snapshot
    verbatim, so a snapshot that lists [logger] under both [enabledPlugins] and
    [disabledPlugins] of [core] leaves the name in both override sets. *)
Lemma C2_importState_breaks_disjointness :
  ¬ overrides_disjoint (run_ops fresh [OpImportState overlapping_snapshot]).
Proof.
  intros Hinv.
  assert (enabledOverrides (run_ops fresh [OpImportState overlapping_snapshot]) !! "core"
          = Some (list_to_set ["logger"])) as HE by (vm_compute; reflexivity).
  assert (disabledOverrides (run_ops fresh [OpImportState overlapping_snapshot]) !! "core"
          = Some (list_to_set ["logger"])) as HD by (vm_compute; reflexivity).
  specialize (Hinv _ _ _ HE HD). rewrite elem_of_disjoint in Hinv.
  apply (Hinv "logger"); apply elem_of_list_to_set, list_elem_of_here.
Qed.

(** A snapshot need not list a name twice for this: an enabled list imported
    over a stored disabled set has the same effect. *)
Example importState_enabled_list_over_disabled_set :
  let m := run_ops fresh
             [ OpLoadCollection core; OpDisablePlugin "core" "tracer";
               OpImportState tracer_enabled_snapshot ] in
  enabledOverrides m !! "core" = Some (list_to_set ["tracer"])
  ∧ disabledOverrides m !! "core" = Some (list_to_set ["tracer"]).
Proof. split; vm_compute; reflexivity. Qed.

(** C2 (amended): starting from a new manager, after any sequence of calls to
    loadCollection, unloadCollection, enablePlugin, disablePlugin, togglePlugin,
    enableAll, disableAll, enableCategory, disableCategory, set/updatePluginSettings
    and importState in which every imported snapshot is [import_ok] (its lists
    for a collection id are disjoint from each other and from the stored set
    they do not replace), no plugin name is in both override sets of a
    collection id. *)
Theorem C2_overrides_disjoint_after_ops {R} `{!PluginRegistry R}
    (reg : R) (auto : option bool) (ops : list Op) :
  ops_ok (new_manager reg auto) ops →
  overrides_disjoint (run_ops (new_manager reg auto) ops).
Proof. apply run_ops_disjoint, overrides_disjoint_new. Qed.

Lemma C2_overrides_disjoint_after_ops_witness :
  ops_ok (new_manager ([] : SimpleRegistry) None)
    [ OpLoadCollection core; OpEnablePlugin "core" "tracer";
      OpImportState consistent_snapshot; OpDisableAll "core";
      OpTogglePlugin "core" "logger"; OpEnableCategory utility ]
  ∧ overrides_disjoint
      (run_ops (new_manager ([] : SimpleRegistry) None)
         [ OpLoadCollection core; OpEnablePlugin "core" "tracer";
           OpImportState consistent_snapshot; OpDisableAll "core";
           OpTogglePlugin "core" "logger"; OpEnableCategory utility ]).
Proof.
  assert (ops_ok (new_manager ([] : SimpleRegistry) None)
    [ OpLoadCollection core; OpEnablePlugin "core" "tracer";
      OpImportState consistent_snapshot; OpDisableAll "core";
      OpTogglePlugin "core" "logger"; OpEnableCategory utility ]) as Hok.
  { refine (bool_decide_unpack _ _). vm_compute. exact I. }
  split; [exact Hok|]. apply C2_overrides_disjoint_after_ops. exact Hok.
Defined.

(** C1 (defect in the code): [isEnabled] is synchronous but calls the [async]
    helpers [findPluginEntry] and [isPluginEnabled] without awaiting them.  Its
    variable [entry] holds a promise, which is never falsy and has no [plugin]
    property, so on a loaded collection [isEnabled] returns a promise that
    rejects with a TypeError instead of the entry's effective state.  For
    [tracer] of [core] (disabled by default, no override) the effective state is
    false, and the value returned is a truthy promise. *)
Theorem C1_isEnabled_returns_rejected_promise :
  Map_get "core" (collections core_loaded) = Some core
  ∧ findPluginEntry core "tracer" = Fulfilled (VEntry tracer_entry)
  ∧ effective_in core_loaded "core" "tracer" (defaultEnabled tracer_entry) = false
  ∧ isPluginEnabled core_loaded "core" (VEntry tracer_entry) = Fulfilled (VBool false)
  ∧ isEnabled core_loaded "core" "tracer" = VPromise (Rejected TypeError)
  ∧ truthy (isEnabled core_loaded "core" "tracer") = true.
Proof. repeat split; vm_compute; reflexivity. Qed.

(** C6 (defect in the code, the same missing [await] as C1): for a collection
    id that is not loaded [isEnabled] returns false, but for a loaded collection
    and a name that matches no entry the guard [if (!entry) return false] tests
    a promise, and the method returns a (truthy) promise that rejects. *)
Theorem C6_isEnabled_unknown_name_is_not_false :
  isEnabled core_loaded "extras" "logger" = VBool false
  ∧ findPluginEntry core "ghost" = Fulfilled VUndefined
  ∧ isEnabled core_loaded "core" "ghost" = VPromise (Rejected TypeError)
  ∧ isEnabled core_loaded "core" "ghost" ≠ VBool false.
Proof. repeat split; try (vm_compute; reflexivity). discriminate. Qed.

(** C10: a plugin name without stored settings has the empty object as its
    settings, and [updatePluginSettings] then stores exactly what
    [setPluginSettings] stores. *)
Theorem C10_settings_default_empty {R} `{!PluginRegistry R}
    (m : Manager R) (pluginName : string) :
  pluginSettings m !! pluginName = None →
  getPluginSettings m pluginName = ∅
  ∧ ∀ settings,
      updatePluginSettings pluginName settings m = setPluginSettings pluginName settings m.
Proof.
  intros Hnone. unfold getPluginSettings, updatePluginSettings, setPluginSettings.
  rewrite Hnone. simpl. split; [done|]. intros settings.
  by rewrite (right_id_L ∅ (∪)).
Qed.

Lemma C10_settings_default_empty_witness :
  pluginSettings core_loaded !! "logger" = None
  ∧ getPluginSettings core_loaded "logger" = ∅
  ∧ ∀ settings,
      updatePluginSettings "logger" settings core_loaded
      = setPluginSettings "logger" settings core_loaded.
Proof.
  assert (pluginSettings core_loaded !! "logger" = None) as Hnone
    by (vm_compute; reflexivity).
  split; [exact Hnone|]. exact (C10_settings_default_empty core_loaded "logger" Hnone).
Defined.

(** *** Loading *)

Section Loading.
Context {R : Type} `{!PluginRegistry R}.
Implicit Types (m : Manager R).

(** The condition of the loop of [loadCollection] is a promise, hence true:
    the loop registers every entry. *)
Lemma load_loop_registers_every_entry collectionId (entries : list PluginCollectionEntry) :
  ∀ m,
    for_each entries (λ entry,
      bind this (λ m',
        if truthy (VPromise (isPluginEnabled m' collectionId (VEntry entry)))
        then registerPlugin (VEntry entry)
        else ret tt)) m
    = for_each entries (λ entry, registerPlugin (VEntry entry)) m.
Proof.
  intros m. reflexivity.
Qed.

Lemma loadCollection_not_loaded collection m :
  Map_has (col_id collection) (collections m) = false →
  loadCollection collection m
  = for_each (plugins collection) (λ entry, registerPlugin (VEntry entry))
      (set_disabledOverrides <[col_id collection := ∅]>
         (set_enabledOverrides <[col_id collection := ∅]>
            (set_collections (Map_set (col_id collection) collection) m))).
Proof.
  intros Hnew. unfold loadCollection. unfold bind at 1, this. simpl.
  rewrite Hnew. reflexivity.
Qed.

(** Whatever the registry does, the override sets of the collection that
    [loadCollection] has just stored are empty. *)
Lemma loadCollection_overrides_empty collection m :
  Map_has (col_id collection) (collections m) = false →
  enabledOverrides (loadCollection collection m).2 !! col_id collection = Some ∅
  ∧ disabledOverrides (loadCollection collection m).2 !! col_id collection = Some ∅.
Proof.
  intros Hnew. rewrite (loadCollection_not_loaded _ _ Hnew).
  apply (preserves_for_each
           (λ m', enabledOverrides m' !! col_id collection = Some ∅
                  ∧ disabledOverrides m' !! col_id collection = Some ∅)).
  - intros entry. apply preserves_registerPlugin. intros m0 reg Hm0. exact Hm0.
  - simpl. by rewrite !lookup_insert_eq.
Qed.

End Loading.

(** C3 (defect in the code): the loop of [loadCollection] tests
    [this.isPluginEnabled(collection.id, entry)] without awaiting it.  The
    promise is truthy whatever it settles with, so every entry is registered,
    in declared order and with its stored settings; the entries whose effective
    state is disabled are registered too.  Loading [core] into a new manager
    registers both [logger] and [tracer], although [tracer] is disabled by
    default and has no override. *)
Theorem C3_loadCollection_registers_disabled_entries :
  (loadCollection core fresh).1 = ok tt
  ∧ enabledOverrides core_loaded !! "core" = Some ∅
  ∧ disabledOverrides core_loaded !! "core" = Some ∅
  ∧ entry_effective core_loaded "core" tracer_entry = false
  ∧ registered_names (registry core_loaded) = ["logger"; "tracer"].
Proof. repeat split; vm_compute; reflexivity. Qed.

(** C4 (defect in the code, the same missing [await] as C1): [togglePlugin]
    tests the value of [isEnabled], which for a loaded collection is a promise
    and so always truthy.  It therefore always calls [disablePlugin], which
    records the name as explicitly disabled and then throws a TypeError.
    [togglePlugin] never returns a boolean, and two calls in a row leave
    [logger] (enabled at first) explicitly disabled while it is still
    registered. *)
Theorem C4_togglePlugin_throws_and_is_not_an_involution :
  let m1 := (togglePlugin "core" "logger" core_loaded).2 in
  let m2 := (togglePlugin "core" "logger" m1).2 in
  (togglePlugin "core" "logger" core_loaded).1 = throw TypeError
  ∧ (togglePlugin "core" "logger" m1).1 = throw TypeError
  ∧ entry_effective core_loaded "core" logger_entry = true
  ∧ entry_effective m2 "core" logger_entry = false
  ∧ registered_names (registry m2) = ["logger"; "tracer"].
Proof. repeat split; vm_compute; reflexivity. Qed.




(** C7, as stated, fails.  Import a snapshot that explicitly enables [tracer]
    of [core] while [core] is not loaded, then load [core]: [loadCollection]
    replaces both override sets of the id by empty sets, so the effective state
    of [tracer] is its default (disabled), not the imported override. *)
Lemma C7_loadCollection_discards_imported_overrides :
  let imported := importState tracer_enabled_snapshot fresh in
  let m := (loadCollection core imported).2 in
  Map_has "core" (collections imported) = false
  ∧ enabledOverrides imported !! "core" = Some (list_to_set ["tracer"])
  ∧ (loadCollection core imported).1 = ok tt
  ∧ isPluginEnabled m "core" (VEntry tracer_entry) = Fulfilled (VBool false)
  ∧ ¬ (entry_effective m "core" tracer_entry = true).
Proof.
  simpl. repeat split; try (vm_compute; reflexivity).
  vm_compute. discriminate.
Qed.

(** C7 (amended): if [importState] is called while a collection id is not
    loaded and the collection is then loaded, [loadCollection] starts the id
    with two empty override sets; the imported overrides for that id are gone
    and the effective state of every entry is the entry's default. *)
Theorem C7_loadCollection_resets_imported_overrides {R} `{!PluginRegistry R}
    (m : Manager R) (state : CollectionManagerState) (collection : PluginCollection) :
  Map_has (col_id collection) (collections m) = false →
  let m' := (loadCollection collection (importState state m)).2 in
  enabledOverrides m' !! col_id collection = Some ∅
  ∧ disabledOverrides m' !! col_id collection = Some ∅
  ∧ ∀ entry p,
      entry ∈ plugins collection →
      resolve_metadata (VEntry entry) = ok p →
      isPluginEnabled m' (col_id collection) (VEntry entry)
      = Fulfilled (VBool (defaultEnabled entry)).
Proof.
  intros Hnew m'.
  destruct (loadCollection_overrides_empty collection (importState state m) Hnew)
    as [HE HD].
  split; [exact HE|]. split; [exact HD|].
  intros entry p _ Hp. rewrite (isPluginEnabled_entry _ _ _ _ Hp).
  unfold effective_in, effective, explicit_enabled, explicit_disabled.
  subst m'. rewrite HE, HD. simpl.
  rewrite !bool_decide_eq_false_2 by apply not_elem_of_empty. reflexivity.
Qed.

Lemma C7_loadCollection_resets_imported_overrides_witness :
  let m' := (loadCollection core (importState tracer_enabled_snapshot fresh)).2 in
  Map_has (col_id core) (collections fresh) = false
  ∧ enabledOverrides m' !! col_id core = Some ∅
  ∧ disabledOverrides m' !! col_id core = Some ∅
  ∧ ∀ entry p,
      entry ∈ plugins core →
      resolve_metadata (VEntry entry) = ok p →
      isPluginEnabled m' (col_id core) (VEntry entry)
      = Fulfilled (VBool (defaultEnabled entry)).
Proof.
  split; [reflexivity|].
  exact (C7_loadCollection_resets_imported_overrides
           fresh tracer_enabled_snapshot core eq_refl).
Defined.

(** *** Statistics *)

Section Statistics.
Context {R : Type} `{!PluginRegistry R}.
Implicit Types (m : Manager R).

(** The test in the loop of [getStats] is on a promise: every entry takes
    the [enabledPlugins++] branch. *)
Lemma stats_entry_counts_enabled m collectionId acc entry :
  stats_entry m collectionId acc entry
  = {| totalCollections := totalCollections acc;
       totalPlugins := totalPlugins acc + 1;
       enabledPlugins := enabledPlugins acc + 1;
       disabledPlugins := disabledPlugins acc;
       byCategory := incr_category (category entry) (byCategory acc) |}.
Proof. reflexivity. Qed.

Lemma incr_category_keys c h : map fst (incr_category c h) = map fst h.
Proof.
  unfold incr_category. induction h as [|[k v] h IH]; [done|].
  simpl. rewrite IH. by case_bool_decide.
Qed.

Lemma stats_entries_fold m collectionId (entries : list PluginCollectionEntry) :
  ∀ acc,
    let acc' := foldl (stats_entry m collectionId) acc entries in
    totalCollections acc' = totalCollections acc
    ∧ totalPlugins acc' = totalPlugins acc + Z.of_nat (length entries)
    ∧ enabledPlugins acc' = enabledPlugins acc + Z.of_nat (length entries)
    ∧ disabledPlugins acc' = disabledPlugins acc
    ∧ map fst (byCategory acc') = map fst (byCategory acc).
Proof.
  induction entries as [|entry entries IH]; intros acc; simpl.
  - repeat split; lia.
  - destruct (IH (stats_entry m collectionId acc entry)) as (H1 & H2 & H3 & H4 & H5).
    rewrite H1, H2, H3, H4, H5, stats_entry_counts_enabled. simpl.
    rewrite incr_category_keys. repeat split; lia.
Qed.

Lemma discovery_length (cols : list (string * PluginCollection)) :
  length ('(collectionId, collection) ← cols;
          entry ← plugins collection; [(collectionId, entry)])
  = sum_list (map (λ cc, length (plugins cc.2)) cols).
Proof.
  induction cols as [|[c col] cols IH]; [done|].
  rewrite bind_cons, length_app, IH. simpl. f_equal.
  induction (plugins col) as [|e es IHe]; [done|].
  rewrite bind_cons. simpl. by rewrite IHe.
Qed.

Lemma stats_collections_fold m (cols : list (string * PluginCollection)) :
  ∀ acc,
    let acc' :=
      foldl (λ acc '(collectionId, collection),
               foldl (stats_entry m collectionId) acc (plugins collection))
            acc cols in
    let n := Z.of_nat (sum_list (map (λ cc, length (plugins cc.2)) cols)) in
    totalCollections acc' = totalCollections acc
    ∧ totalPlugins acc' = totalPlugins acc + n
    ∧ enabledPlugins acc' = enabledPlugins acc + n
    ∧ disabledPlugins acc' = disabledPlugins acc
    ∧ map fst (byCategory acc') = map fst (byCategory acc).
Proof.
  induction cols as [|[c col] cols IH]; intros acc; simpl.
  - repeat split; lia.
  - destruct (IH (foldl (stats_entry m c) acc (plugins col))) as (H1 & H2 & H3 & H4 & H5).
    destruct (stats_entries_fold m c (plugins col) acc) as (G1 & G2 & G3 & G4 & G5).
    simpl in *. rewrite H1, H2, H3, H4, H5, G1, G2, G3, G4, G5.
    repeat split; lia.
Qed.

(** What [getStats] reports, for every manager: the totals and the nine keys
    are right, and every entry is counted as enabled. *)
Lemma getStats_counts m :
  totalCollections (getStats m) = Z.of_nat (length (collections m))
  ∧ totalPlugins (getStats m) = Z.of_nat (length (discovery m))
  ∧ enabledPlugins (getStats m) = totalPlugins (getStats m)
  ∧ disabledPlugins (getStats m) = 0
  ∧ map fst (byCategory (getStats m))
    = [agent; task; tool; memory; provider; hook; worker; integration; utility].
Proof.
  unfold getStats, discovery. rewrite discovery_length.
  match goal with
  | |- context [foldl _ ?init _] =>
      destruct (stats_collections_fold m (collections m) init) as (H1 & H2 & H3 & H4 & H5)
  end.
  simpl in *. rewrite H1, H2, H3, H4, H5. repeat split; lia.
Qed.

End Statistics.

(** C9 (defect in the code, a missing [await] as in C3): [getStats] tests
    [this.isPluginEnabled(collectionId, entry)] without awaiting it, so every
    entry is counted as enabled and none as disabled.  The number of loaded
    collections, the total, the sum enabled + disabled = total and the nine
    category keys are as claimed, but for the scenario of the specification
    ([core] with [logger] enabled and [tracer] disabled by default)
    [getStats] reports 2 enabled and 0 disabled where one entry is effectively
    enabled. *)
Theorem C9_getStats_counts_every_entry_as_enabled :
  getStats core_loaded
  = {| totalCollections := 1; totalPlugins := 2;
       enabledPlugins := 2; disabledPlugins := 0;
       byCategory :=
         [ (agent, 0); (task, 0); (tool, 0); (memory, 0); (provider, 0);
           (hook, 0); (worker, 0); (integration, 0); (utility, 2) ] |}
  ∧ effective_count core_loaded = 1.
Proof. split; vm_compute; reflexivity. Qed.

(** *** Sorting *)

Section Sorting.
Context {A : Type} (key : A → Z).

Lemma sort_insert_perm (cmp : A → A → Z) x l : sort_insert cmp x l ≡ₚ x :: l.
Proof.
  induction l as [|y l IH]; simpl; [done|].
  destruct (0 <? cmp x y); [|done]. rewrite IH. apply Permutation_swap.
Qed.

Lemma Array_sort_perm (cmp : A → A → Z) l : Array_sort cmp l ≡ₚ l.
Proof.
  induction l as [|x l IH]; simpl; [done|].
  by rewrite sort_insert_perm, IH.
Qed.

Lemma sort_insert_sorted x l :
  StronglySorted (λ a b, key b ≤ key a) l →
  StronglySorted (λ a b, key b ≤ key a) (sort_insert (λ a b, key b - key a) x l).
Proof.
  induction 1 as [|y l Hsorted IH Hall]; simpl.
  - by repeat constructor.
  - destruct (Z.ltb_spec 0 (key y - key x)) as [Hlt|Hge].
    + constructor; [exact IH|]. rewrite sort_insert_perm.
      constructor; [lia | exact Hall].
    + constructor; [by constructor|]. constructor; [lia|].
      eapply Forall_impl; [exact Hall|]. simpl. intros b Hb. lia.
Qed.

Lemma Array_sort_sorted l :
  StronglySorted (λ a b, key b ≤ key a) (Array_sort (λ a b, key b - key a) l).
Proof.
  induction l as [|x l IH]; simpl; [constructor|]. by apply sort_insert_sorted.
Qed.

(** Stability: among the elements of one key, the order is the one before
    sorting. *)
Lemma sort_insert_stable s x l :
  filter (λ a, key a = s) (sort_insert (λ a b, key b - key a) x l) = filter (λ a, key a = s) (x :: l).
Proof.
  induction l as [|y l IH]; simpl; [done|].
  destruct (Z.ltb_spec 0 (key y - key x)) as [Hlt|Hge]; [|done].
  rewrite (filter_cons _ y), IH, !filter_cons.
  repeat case_decide; try done; lia.
Qed.

Lemma Array_sort_stable s l :
  filter (λ a, key a = s) (Array_sort (λ a b, key b - key a) l) = filter (λ a, key a = s) l.
Proof.
  induction l as [|x l IH]; simpl; [done|].
  by rewrite sort_insert_stable, !filter_cons, IH.
Qed.

End Sorting.

(** *** Search *)

Section Search.
Context {R : Type} `{!PluginRegistry R}.
Implicit Types (m : Manager R) (entry : PluginCollectionEntry).

(** The score the loop computes is the score of the specification. *)
Lemma search_score_spec query entry p :
  search_score (toLowerCase query) entry p = score_spec query entry p.
Proof.
  unfold search_score, score_spec.
  assert (match tags entry with
          | Some ts => existsb (λ t, includes (toLowerCase t) (toLowerCase query)) ts
          | None => false
          end
          = bool_decide (Exists (λ t, includes (toLowerCase t) (toLowerCase query) = true)
                                (default [] (tags entry)))) as ->.
  { destruct (tags entry) as [ts|]; simpl.
    - apply eq_true_iff_eq. rewrite bool_decide_eq_true, existsb_exists, Exists_exists.
      split; intros [t [Ht1 Ht2]]; exists t; by rewrite ?list_elem_of_In in *.
    - reflexivity. }
  assert (match description entry with
          | Some d => d
          | None => default "" (metadata_description p)
          end
          = default (default "" (metadata_description p)) (description entry)) as ->
    by (by destruct (description entry)).
  assert ((toLowerCase (metadata_name p) =? toLowerCase query)%string
          = bool_decide (toLowerCase (metadata_name p) = toLowerCase query)) as ->.
  { apply eq_true_iff_eq. by rewrite bool_decide_eq_true, String.eqb_eq. }
  repeat match goal with |- context [if ?b then _ else _] => destruct b end; lia.
Qed.

Lemma score_spec_nonneg query entry p : 0 ≤ score_spec query entry p.
Proof.
  unfold score_spec.
  repeat match goal with |- context [if ?b then _ else _] => destruct b end; lia.
Qed.

Lemma search_found_resolved m queryLower collectionId entry p :
  resolve_metadata (VEntry entry) = ok p →
  search_found m queryLower (collectionId, entry)
  = if 0 <? search_score queryLower entry p
    then [ {| sr_collectionId := collectionId; sr_entry := entry;
              sr_pluginName := metadata_name p;
              sr_enabled := VPromise (isPluginEnabled m collectionId (VEntry entry));
              sr_score := search_score queryLower entry p |} ]
    else [].
Proof. intros Hp. unfold search_found. simpl. by rewrite Hp. Qed.

(** One turn of the inner loop appends what it found for the entry. *)
Lemma search_entries_found m queryLower collectionId (entries : list PluginCollectionEntry) :
  ∀ results,
    Forall (λ entry, ∃ p, resolve_metadata (VEntry entry) = ok p) entries →
    search_entries m queryLower collectionId entries results
    = ok (results ++
          (entries ≫= λ entry, search_found m queryLower (collectionId, entry)))%list.
Proof.
  induction entries as [|entry entries IH]; intros results Hres.
  - simpl. by rewrite (right_id_L [] (++)).
  - apply Forall_cons in Hres as [[p Hp] Hres].
    rewrite bind_cons. cbn [search_entries].
    rewrite Hp. unfold ok at 1. cbv beta iota zeta.
    rewrite (IH _ Hres), (search_found_resolved _ _ _ _ _ Hp). f_equal.
    destruct (0 <? search_score queryLower entry p).
    + by rewrite <- (assoc_L (++)).
    + done.
Qed.

Lemma bind_tagged {B} (f : string * PluginCollectionEntry → list B)
    (c : string) (entries : list PluginCollectionEntry) :
  (entries ≫= λ entry, [(c, entry)]) ≫= f = entries ≫= λ entry, f (c, entry).
Proof.
  induction entries as [|e es IH]; [done|].
  rewrite !bind_cons, bind_app, IH. simpl. by rewrite (right_id_L [] (++)).
Qed.

Lemma search_collections_found m queryLower (cols : list (string * PluginCollection)) :
  ∀ results,
    Forall (λ ce, ∃ p, resolve_metadata (VEntry ce.2) = ok p)
           ('(collectionId, collection) ← cols;
            entry ← plugins collection; [(collectionId, entry)]) →
    search_collections m queryLower cols results
    = ok (results ++
          (('(collectionId, collection) ← cols;
            entry ← plugins collection; [(collectionId, entry)])
           ≫= search_found m queryLower))%list.
Proof.
  induction cols as [|[c col] cols IH]; intros results Hres.
  - simpl. by rewrite (right_id_L [] (++)).
  - rewrite bind_cons in Hres. apply Forall_app in Hres as [Hcol Hres].
    cbn [search_collections]. rewrite search_entries_found.
    + unfold ok at 1. cbv beta iota.
      rewrite (IH _ Hres), bind_cons, bind_app, <- (assoc_L (++)).
      by rewrite bind_tagged.
    + clear -Hcol. induction (plugins col) as [|e es IHe]; [constructor|].
      rewrite bind_cons in Hcol. apply Forall_app in Hcol as [He Hes].
      constructor; [|by apply IHe]. by apply Forall_cons in He as [He _].
Qed.

(** What the loop finds for an entry is the candidate of the specification. *)
Lemma hit_of_search_found m query ce :
  hit_of <$> search_found m (toLowerCase query) ce = search_candidate query ce.
Proof.
  unfold search_found, search_candidate.
  destruct (resolve_metadata (VEntry ce.2)) as [e|p]; [done|].
  rewrite search_score_spec.
  pose proof (score_spec_nonneg query ce.2 p) as Hge.
  destruct (Z.ltb_spec 0 (score_spec query ce.2 p)) as [Hlt|Hle].
  - by rewrite bool_decide_eq_false_2 by lia.
  - by rewrite bool_decide_eq_true_2 by lia.
Qed.

Lemma hit_of_bind_search_found m query (l : list (string * PluginCollectionEntry)) :
  hit_of <$> (l ≫= search_found m (toLowerCase query)) = l ≫= search_candidate query.
Proof.
  induction l as [|ce l IH]; [done|].
  by rewrite !bind_cons, fmap_app, IH, hit_of_search_found.
Qed.

(** Sorting the results by score and then forgetting [enabled] is sorting
    the hits by score. *)
Lemma hit_of_sort_insert r (l : list SearchResult) :
  hit_of <$> sort_insert (λ a b, sr_score b - sr_score a) r l
  = sort_insert (λ a b, hit_score b - hit_score a) (hit_of r) (hit_of <$> l).
Proof.
  induction l as [|y l IH]; [done|]. cbn [sort_insert fmap list_fmap hit_of hit_score].
  destruct (0 <? sr_score y - sr_score r); [|done].
  rewrite fmap_cons. f_equal. exact IH.
Qed.

Lemma hit_of_Array_sort (l : list SearchResult) :
  hit_of <$> Array_sort (λ a b, sr_score b - sr_score a) l
  = Array_sort (λ a b, hit_score b - hit_score a) (hit_of <$> l).
Proof.
  induction l as [|r l IH]; [done|].
  change (Array_sort (λ a b, sr_score b - sr_score a) (r :: l))
    with (sort_insert (λ a b, sr_score b - sr_score a) r
            (Array_sort (λ a b, sr_score b - sr_score a) l)).
  by rewrite hit_of_sort_insert, IH.
Qed.

End Search.

(** C8: when every plugin reference of the loaded collections resolves,
    [searchPlugins] returns the entries whose score is not 0, each with the
    score of the specification ([score_spec]: case-insensitively 100 for an
    exact name match, else 50 for a name substring match, plus 25 for a
    description match, plus 30 for a tag match, plus 20 for a category match),
    sorted by descending score, entries of equal score in discovery order
    (collections in iteration order, then entries in declared order). *)
Theorem C8_searchPlugins_scores_and_orders {R} `{!PluginRegistry R}
    (m : Manager R) (query : string) :
  Forall (λ ce, ∃ p, resolve_metadata (VEntry ce.2) = ok p) (discovery m) →
  ∃ results,
    searchPlugins m query = ok results
    ∧ hit_of <$> results ≡ₚ search_candidates m query
    ∧ StronglySorted by_score_desc (hit_of <$> results)
    ∧ ∀ s, filter (λ h, hit_score h = s) (hit_of <$> results)
           = filter (λ h, hit_score h = s) (search_candidates m query).
Proof.
  intros Hres. unfold searchPlugins, search_candidates, discovery in *.
  rewrite (search_collections_found m (toLowerCase query) (collections m) [] Hres).
  simpl. eexists. split; [reflexivity|].
  rewrite hit_of_Array_sort, hit_of_bind_search_found.
  split; [apply Array_sort_perm|].
  split; [apply (Array_sort_sorted hit_score) | intros s; apply (Array_sort_stable hit_score)].
Qed.

Lemma C8_searchPlugins_scores_and_orders_witness :
  Forall (λ ce, ∃ p, resolve_metadata (VEntry ce.2) = ok p) (discovery security_loaded)
  ∧ ∃ results,
      searchPlugins security_loaded "Auth" = ok results
      ∧ hit_of <$> results ≡ₚ search_candidates security_loaded "Auth"
      ∧ StronglySorted by_score_desc (hit_of <$> results)
      ∧ ∀ s, filter (λ h, hit_score h = s) (hit_of <$> results)
             = filter (λ h, hit_score h = s) (search_candidates security_loaded "Auth").
Proof.
  assert (Forall (λ ce, ∃ p, resolve_metadata (VEntry ce.2) = ok p)
                 (discovery security_loaded)) as Hres.
  { repeat constructor; eexists; reflexivity. }
  split; [exact Hres|].
  exact (C8_searchPlugins_scores_and_orders security_loaded "Auth" Hres).
Defined.

(** The search property of the specification: for the query "auth",
    [auth-provider] scores 50 and comes before the plugin that matches by its
    description only (25), although that one is discovered first. *)
Example searchPlugins_auth :
  match searchPlugins security_loaded "auth" with
  | inr results => map (λ r, (sr_pluginName r, sr_score r)) results
  | inl _ => []
  end
  = [("auth-provider", 50); ("session-store", 25)].
Proof. vm_compute. reflexivity. Qed.

(** ** Further properties of the manager *)

(** *** The collection map *)

Section CollectionMap.
Context {V : Type}.
Implicit Types (m : list (string * V)).

Lemma Map_get_set_eq k (v : V) m : Map_get k (Map_set k v m) = Some v.
Proof.
  induction m as [|[k' v'] m IH]; simpl.
  - by rewrite String.eqb_refl.
  - destruct (String.eqb_spec k' k) as [->|Hne]; simpl.
    + by rewrite String.eqb_refl.
    + by destruct (String.eqb_spec k' k).
Qed.

Lemma Map_get_set_ne k k' (v : V) m : k ≠ k' → Map_get k' (Map_set k v m) = Map_get k' m.
Proof.
  intros Hne. induction m as [|[k0 v0] m IH]; simpl.
  - by destruct (String.eqb_spec k k').
  - destruct (String.eqb_spec k0 k) as [->|Hk]; simpl.
    + by destruct (String.eqb_spec k k').
    + destruct (String.eqb_spec k0 k'); [done | exact IH].
Qed.

Lemma Map_get_delete_eq k m : Map_get k (Map_delete k m) = None.
Proof.
  induction m as [|[k' v'] m IH]; simpl; [done|].
  destruct (String.eqb_spec k' k) as [->|Hne]; simpl; [exact IH|].
  by destruct (String.eqb_spec k' k).
Qed.

Lemma Map_get_delete_ne k k' m : k ≠ k' → Map_get k' (Map_delete k m) = Map_get k' m.
Proof.
  intros Hne. induction m as [|[k0 v0] m IH]; simpl; [done|].
  destruct (String.eqb_spec k0 k) as [->|Hk]; simpl.
  - rewrite IH. by destruct (String.eqb_spec k k').
  - by rewrite IH.
Qed.

(** A new key goes to the end. *)
Lemma Map_set_new k (v : V) m : Map_get k m = None → Map_set k v m = (m ++ [(k, v)])%list.
Proof.
  induction m as [|[k' v'] m IH]; simpl; [done|].
  destruct (String.eqb_spec k' k); [done|]. intros Hm. by rewrite (IH Hm).
Qed.

Lemma Map_delete_absent k m : Map_get k m = None → Map_delete k m = m.
Proof.
  induction m as [|[k' v'] m IH]; simpl; [done|].
  destruct (String.eqb_spec k' k); [done|]. intros Hm. by rewrite (IH Hm).
Qed.

Lemma Map_delete_set_new k (v : V) m : Map_get k m = None → Map_delete k (Map_set k v m) = m.
Proof.
  induction m as [|[k' v'] m IH]; simpl.
  - by rewrite String.eqb_refl.
  - destruct (String.eqb_spec k' k) as [|Hne]; [done|]. intros Hm. simpl.
    destruct (String.eqb_spec k' k); [done|]. by rewrite (IH Hm).
Qed.

Lemma Map_get_elem_of k (v : V) m : (k, v) ∈ m → is_Some (Map_get k m).
Proof.
  induction m as [|[k' v'] m IH]; [by intros ?%elem_of_nil|].
  intros [Heq|Hin]%elem_of_cons; simpl.
  - simplify_eq. rewrite String.eqb_refl. by eexists.
  - destruct (String.eqb_spec k' k); [by eexists | by apply IH].
Qed.

End CollectionMap.

(** *** Loading and unloading *)

Section Lifecycle.
Context {R : Type} `{!PluginRegistry R}.
Implicit Types (m : Manager R) (collection : PluginCollection).

Lemma loadCollection_loaded collection m :
  Map_has (col_id collection) (collections m) = true →
  loadCollection collection m
  = (throw (CollectionAlreadyLoaded (col_id collection)), m).
Proof.
  intros Hc. unfold loadCollection. unfold bind at 1, this. simpl. by rewrite Hc.
Qed.

(** What [loadCollection] has written when it returns or throws. *)
Lemma loadCollection_frame collection m :
  Map_has (col_id collection) (collections m) = false →
  let m' := (loadCollection collection m).2 in
  collections m' = Map_set (col_id collection) collection (collections m)
  ∧ enabledOverrides m' = <[col_id collection := ∅]> (enabledOverrides m)
  ∧ disabledOverrides m' = <[col_id collection := ∅]> (disabledOverrides m)
  ∧ pluginSettings m' = pluginSettings m.
Proof.
  intros Hnew. simpl. rewrite (loadCollection_not_loaded _ _ Hnew).
  apply (preserves_for_each
           (λ m', collections m' = Map_set (col_id collection) collection (collections m)
                  ∧ enabledOverrides m' = <[col_id collection := ∅]> (enabledOverrides m)
                  ∧ disabledOverrides m' = <[col_id collection := ∅]> (disabledOverrides m)
                  ∧ pluginSettings m' = pluginSettings m)).
  - intros entry. apply preserves_registerPlugin. intros m0 reg Hm0. exact Hm0.
  - done.
Qed.

Lemma Map_has_false {V} k (cs : list (string * V)) : Map_has k cs = false → Map_get k cs = None.
Proof. unfold Map_has. by destruct (Map_get k cs). Qed.

Lemma Map_has_true {V} k (cs : list (string * V)) : Map_has k cs = true → is_Some (Map_get k cs).
Proof. unfold Map_has. destruct (Map_get k cs); [by eexists | done]. Qed.

End Lifecycle.

(** X1: [loadCollection] has no rollback.  For an id that is not loaded, and
    whether the call returns or a registration throws, afterwards the
    collection is loaded as the last one, its two override sets are empty, the
    override sets of the other ids and all plugin settings are as before. *)
Theorem loadCollection_commits_without_rollback {R} `{!PluginRegistry R}
    (m : Manager R) (collection : PluginCollection) :
  Map_has (col_id collection) (collections m) = false →
  let m' := (loadCollection collection m).2 in
  listCollections m' = (listCollections m ++ [collection])%list
  ∧ getCollection m' (col_id collection) = Some collection
  ∧ enabledOverrides m' = <[col_id collection := ∅]> (enabledOverrides m)
  ∧ disabledOverrides m' = <[col_id collection := ∅]> (disabledOverrides m)
  ∧ pluginSettings m' = pluginSettings m.
Proof.
  intros Hnew m'. destruct (loadCollection_frame collection m Hnew) as (Hc & HE & HD & HS).
  fold m' in Hc, HE, HD, HS. unfold listCollections, getCollection.
  rewrite Hc. split; [|split; [apply Map_get_set_eq | done]].
  rewrite (Map_set_new _ _ _ (Map_has_false _ _ Hnew)). by rewrite fmap_app.
Qed.

Lemma loadCollection_commits_without_rollback_witness :
  let m' := (loadCollection pipeline core_loaded).2 in
  Map_has (col_id pipeline) (collections core_loaded) = false
  ∧ (loadCollection pipeline core_loaded).1 = throw (ExternalError "plugin already registered")
  ∧ listCollections m' = (listCollections core_loaded ++ [pipeline])%list
  ∧ getCollection m' (col_id pipeline) = Some pipeline
  ∧ enabledOverrides m' = <[col_id pipeline := ∅]> (enabledOverrides core_loaded)
  ∧ disabledOverrides m' = <[col_id pipeline := ∅]> (disabledOverrides core_loaded)
  ∧ pluginSettings m' = pluginSettings core_loaded.
Proof.
  split; [reflexivity|]. split; [vm_compute; reflexivity|].
  exact (loadCollection_commits_without_rollback core_loaded pipeline eq_refl).
Defined.

(** X2: loading the same collection again always fails with "already
    loaded" and changes nothing, whatever the first call did. *)
Theorem loadCollection_twice_fails {R} `{!PluginRegistry R}
    (m : Manager R) (collection : PluginCollection) :
  let m1 := (loadCollection collection m).2 in
  loadCollection collection m1
  = (throw (CollectionAlreadyLoaded (col_id collection)), m1).
Proof.
  intros m1. apply loadCollection_loaded.
  destruct (Map_has (col_id collection) (collections m)) eqn:Hc.
  - subst m1. by rewrite (loadCollection_loaded _ _ Hc).
  - destruct (loadCollection_frame collection m Hc) as (Hcs & _).
    fold m1 in Hcs. unfold Map_has. by rewrite Hcs, Map_get_set_eq.
Qed.

Section Unloading.
Context {R : Type} `{!PluginRegistry R}.
Implicit Types (m : Manager R) (collection : PluginCollection).

Lemma unloadCollection_loaded collectionId collection m :
  Map_get collectionId (collections m) = Some collection →
  unloadCollection collectionId m
  = bind (unregister_all (plugins collection)) (λ _,
      bind (modify (set_collections (Map_delete collectionId))) (λ _,
        bind (modify (set_enabledOverrides (delete collectionId))) (λ _,
          modify (set_disabledOverrides (delete collectionId))))) m.
Proof.
  intros Hc. unfold unloadCollection. unfold bind at 1, this. simpl. by rewrite Hc.
Qed.

Lemma unloadCollection_not_loaded collectionId m :
  Map_get collectionId (collections m) = None →
  unloadCollection collectionId m = (throw (CollectionNotFound collectionId), m).
Proof.
  intros Hc. unfold unloadCollection. unfold bind at 1, this. simpl. by rewrite Hc.
Qed.

(** The loop only talks to the registry. *)
Lemma unregister_all_frame (entries : list PluginCollectionEntry) m :
  let m' := (unregister_all entries m).2 in
  collections m' = collections m
  ∧ enabledOverrides m' = enabledOverrides m
  ∧ disabledOverrides m' = disabledOverrides m
  ∧ pluginSettings m' = pluginSettings m.
Proof.
  apply (preserves_unload_loop
           (λ m', collections m' = collections m
                  ∧ enabledOverrides m' = enabledOverrides m
                  ∧ disabledOverrides m' = disabledOverrides m
                  ∧ pluginSettings m' = pluginSettings m)); [|done].
  intros m0 reg Hm0. exact Hm0.
Qed.

(** One turn of the loop: a refusal of the registry is caught. *)
Lemma unregister_all_cons entry (entries : list PluginCollectionEntry) m :
  unregister_all (entry :: entries) m
  = match resolve_metadata (VEntry entry) with
    | inl e => (throw e, m)
    | inr p =>
        unregister_all entries
          (if bool_decide (is_Some (getPlugin (metadata_name p) (registry m)))
           then set_registry (unregister (metadata_name p) (registry m)).2 m
           else m)
    end.
Proof.
  unfold unregister_all. simpl.
  cbv [bind lift this ok throw try_catch call_registry ret].
  destruct (resolve_metadata (VEntry entry)) as [e|p]; [done|].
  destruct (bool_decide (is_Some (getPlugin (metadata_name p) (registry m))));
    [|reflexivity].
  destruct (unregister (metadata_name p) (registry m)) as [[e|[]] reg]; reflexivity.
Qed.

(** It ends normally exactly when every plugin reference resolves: a refusal
    of the registry is caught, a failing factory is not. *)
Lemma unregister_all_ok (entries : list PluginCollectionEntry) :
  all_resolve entries → ∀ m, (unregister_all entries m).1 = ok tt.
Proof.
  unfold all_resolve. intros Hall.
  induction Hall as [|entry entries [p Hp] _ IH]; intros m; [done|].
  rewrite unregister_all_cons, Hp. apply IH.
Qed.

Lemma unregister_all_throws (entries : list PluginCollectionEntry) :
  ¬ all_resolve entries → ∀ m, ∃ e, (unregister_all entries m).1 = throw e.
Proof.
  induction entries as [|entry entries IH]; intros Hnot m.
  - destruct Hnot. constructor.
  - rewrite unregister_all_cons.
    destruct (resolve_metadata (VEntry entry)) as [e|p] eqn:Hp; [by exists e|].
    apply IH. intros Hall. apply Hnot. constructor; [by exists p | done].
Qed.

Lemma unloadCollection_resolving collectionId collection m :
  Map_get collectionId (collections m) = Some collection →
  all_resolve (plugins collection) →
  unloadCollection collectionId m
  = (ok tt,
     set_disabledOverrides (delete collectionId)
       (set_enabledOverrides (delete collectionId)
          (set_collections (Map_delete collectionId)
             (unregister_all (plugins collection) m).2))).
Proof.
  intros Hc Hall. rewrite (unloadCollection_loaded _ _ _ Hc). unfold bind at 1.
  pose proof (unregister_all_ok _ Hall m) as Hok.
  by destruct (unregister_all (plugins collection) m) as [[e'|[]] m1].
Qed.

Lemma unloadCollection_failing collectionId collection m :
  Map_get collectionId (collections m) = Some collection →
  ¬ all_resolve (plugins collection) →
  ∃ e, unloadCollection collectionId m
       = (throw e, (unregister_all (plugins collection) m).2).
Proof.
  intros Hc Hnot. rewrite (unloadCollection_loaded _ _ _ Hc). unfold bind at 1.
  destruct (unregister_all_throws _ Hnot m) as [e He].
  destruct (unregister_all (plugins collection) m) as [[e'|[]] m1]; [|done].
  by exists e'.
Qed.

Lemma unregister_all_ok_inv (entries : list PluginCollectionEntry) :
  ∀ m, (unregister_all entries m).1 = ok tt → all_resolve entries.
Proof.
  induction entries as [|entry entries IH]; intros m Hok; [constructor|].
  rewrite unregister_all_cons in Hok.
  destruct (resolve_metadata (VEntry entry)) as [e|p] eqn:Hp; [done|].
  constructor; [by exists p | by eapply IH].
Qed.

End Unloading.

(** X3: [unloadCollection] returns normally exactly when the collection is
    loaded and every plugin reference of its entries resolves; refusals of the
    registry to unregister are ignored. *)
Theorem unloadCollection_succeeds_iff {R} `{!PluginRegistry R}
    (m : Manager R) (collectionId : string) :
  (unloadCollection collectionId m).1 = ok tt
  ↔ ∃ collection,
      Map_get collectionId (collections m) = Some collection
      ∧ all_resolve (plugins collection).
Proof.
  destruct (Map_get collectionId (collections m)) as [collection|] eqn:Hc.
  - rewrite (unloadCollection_loaded _ _ _ Hc). unfold bind at 1. split.
    + intros Hok. exists collection. split; [done|].
      apply (unregister_all_ok_inv _ m).
      destruct (unregister_all (plugins collection) m) as [[e'|[]] m1]; simpl in *; done.
    + intros (collection' & [= <-] & Hall).
      pose proof (unregister_all_ok _ Hall m) as Hok.
      destruct (unregister_all (plugins collection) m) as [[e'|[]] m1]; simpl in *; done.
  - rewrite (unloadCollection_not_loaded _ _ Hc). simpl. split; [done|].
    by intros (collection & ? & _).
Qed.

(** X4: when [unloadCollection] returns normally, the collection and its two
    override sets are gone; the other collections, the other override sets and
    all plugin settings are as before. *)
Theorem unloadCollection_removes_collection_and_overrides {R} `{!PluginRegistry R}
    (m : Manager R) (collectionId : string) (collection : PluginCollection) :
  Map_get collectionId (collections m) = Some collection →
  all_resolve (plugins collection) →
  let m' := (unloadCollection collectionId m).2 in
  collections m' = Map_delete collectionId (collections m)
  ∧ getCollection m' collectionId = None
  ∧ enabledOverrides m' = delete collectionId (enabledOverrides m)
  ∧ disabledOverrides m' = delete collectionId (disabledOverrides m)
  ∧ pluginSettings m' = pluginSettings m.
Proof.
  intros Hc Hall. simpl. rewrite (unloadCollection_resolving _ _ _ Hc Hall).
  destruct (unregister_all_frame (plugins collection) m) as (H1 & H2 & H3 & H4).
  unfold getCollection. simpl. rewrite H1, H2, H3, H4.
  repeat split. apply Map_get_delete_eq.
Qed.

Lemma unloadCollection_removes_collection_and_overrides_witness :
  let m' := (unloadCollection "core" security_loaded).2 in
  Map_get "core" (collections security_loaded) = Some core
  ∧ all_resolve (plugins core)
  ∧ collections m' = Map_delete "core" (collections security_loaded)
  ∧ getCollection m' "core" = None
  ∧ enabledOverrides m' = delete "core" (enabledOverrides security_loaded)
  ∧ disabledOverrides m' = delete "core" (disabledOverrides security_loaded)
  ∧ pluginSettings m' = pluginSettings security_loaded.
Proof.
  assert (Map_get "core" (collections security_loaded) = Some core) as Hc
    by (vm_compute; reflexivity).
  assert (all_resolve (plugins core)) as Hall
    by (repeat constructor; eexists; reflexivity).
  split; [exact Hc|]. split; [exact Hall|].
  exact (unloadCollection_removes_collection_and_overrides security_loaded "core" core Hc Hall).
Defined.

(** X5: when a plugin factory of the collection throws, [unloadCollection]
    is abandoned: it throws, and the collection, every override set and all
    plugin settings stay as they were. *)
Theorem unloadCollection_abandoned_keeps_collection {R} `{!PluginRegistry R}
    (m : Manager R) (collectionId : string) (collection : PluginCollection) :
  Map_get collectionId (collections m) = Some collection →
  ¬ all_resolve (plugins collection) →
  let r := unloadCollection collectionId m in
  (∃ e, r.1 = throw e)
  ∧ collections r.2 = collections m
  ∧ enabledOverrides r.2 = enabledOverrides m
  ∧ disabledOverrides r.2 = disabledOverrides m
  ∧ pluginSettings r.2 = pluginSettings m.
Proof.
  intros Hc Hnot. simpl.
  destruct (unloadCollection_failing _ _ _ Hc Hnot) as [e ->].
  destruct (unregister_all_frame (plugins collection) m) as (H1 & H2 & H3 & H4).
  simpl. split; [by exists e | done].
Qed.

Lemma unloadCollection_abandoned_keeps_collection_witness :
  let r := unloadCollection "flaky" flaky_loaded in
  Map_get "flaky" (collections flaky_loaded) = Some flaky
  ∧ ¬ all_resolve (plugins flaky)
  ∧ (∃ e, r.1 = throw e)
  ∧ collections r.2 = collections flaky_loaded
  ∧ enabledOverrides r.2 = enabledOverrides flaky_loaded
  ∧ disabledOverrides r.2 = disabledOverrides flaky_loaded
  ∧ pluginSettings r.2 = pluginSettings flaky_loaded.
Proof.
  assert (Map_get "flaky" (collections flaky_loaded) = Some flaky) as Hc
    by (vm_compute; reflexivity).
  assert (¬ all_resolve (plugins flaky)) as Hnot.
  { intros Hall. apply Forall_cons in Hall as [_ Hall].
    apply Forall_cons in Hall as [[p Hp] _]. discriminate Hp. }
  split; [exact Hc|]. split; [exact Hnot|].
  exact (unloadCollection_abandoned_keeps_collection flaky_loaded "flaky" flaky Hc Hnot).
Defined.

(** X6: loading a collection and unloading it again restores the loaded
    collections, both override maps and the plugin settings, provided the
    id was neither loaded nor had override sets before and every plugin
    reference resolves (the registry may have changed). *)
Theorem load_then_unload_restores {R} `{!PluginRegistry R}
    (m : Manager R) (collection : PluginCollection) :
  Map_get (col_id collection) (collections m) = None →
  enabledOverrides m !! col_id collection = None →
  disabledOverrides m !! col_id collection = None →
  all_resolve (plugins collection) →
  let m1 := (loadCollection collection m).2 in
  let r := unloadCollection (col_id collection) m1 in
  r.1 = ok tt
  ∧ collections r.2 = collections m
  ∧ enabledOverrides r.2 = enabledOverrides m
  ∧ disabledOverrides r.2 = disabledOverrides m
  ∧ pluginSettings r.2 = pluginSettings m.
Proof.
  intros Hc HE HD Hall m1.
  assert (Map_has (col_id collection) (collections m) = false) as Hnew
    by (unfold Map_has; by rewrite Hc).
  destruct (loadCollection_frame collection m Hnew) as (H1 & H2 & H3 & H4).
  fold m1 in H1, H2, H3, H4.
  assert (Map_get (col_id collection) (collections m1) = Some collection) as Hc1
    by (by rewrite H1, Map_get_set_eq).
  simpl. rewrite (unloadCollection_resolving _ _ _ Hc1 Hall).
  destruct (unregister_all_frame (plugins collection) m1) as (G1 & G2 & G3 & G4).
  simpl. rewrite G1, G2, G3, G4, H1, H2, H3, H4.
  rewrite (Map_delete_set_new _ _ _ Hc), !delete_insert_id by done. done.
Qed.

Lemma load_then_unload_restores_witness :
  let m1 := (loadCollection security core_loaded).2 in
  let r := unloadCollection (col_id security) m1 in
  Map_get (col_id security) (collections core_loaded) = None
  ∧ enabledOverrides core_loaded !! col_id security = None
  ∧ disabledOverrides core_loaded !! col_id security = None
  ∧ all_resolve (plugins security)
  ∧ r.1 = ok tt
  ∧ collections r.2 = collections core_loaded
  ∧ enabledOverrides r.2 = enabledOverrides core_loaded
  ∧ disabledOverrides r.2 = disabledOverrides core_loaded
  ∧ pluginSettings r.2 = pluginSettings core_loaded.
Proof.
  assert (Map_get (col_id security) (collections core_loaded) = None) as Hc
    by (vm_compute; reflexivity).
  assert (enabledOverrides core_loaded !! col_id security = None) as HE
    by (vm_compute; reflexivity).
  assert (disabledOverrides core_loaded !! col_id security = None) as HD
    by (vm_compute; reflexivity).
  assert (all_resolve (plugins security)) as Hall
    by (repeat constructor; eexists; reflexivity).
  do 4 (split; [assumption|]).
  exact (load_then_unload_restores core_loaded security Hc HE HD Hall).
Defined.

(** *** What the activation methods write *)

Section Activation.
Context {R : Type} `{!PluginRegistry R}.
Implicit Types (m : Manager R) (P : Manager R → Prop).

Lemma enablePlugin_marks m collectionId collection pluginName :
  Map_get collectionId (collections m) = Some collection →
  enablePlugin collectionId pluginName m
  = (throw TypeError, mark_enabled collectionId pluginName m).
Proof. apply enablePlugin_loaded. Qed.

Lemma disablePlugin_marks m collectionId collection pluginName :
  Map_get collectionId (collections m) = Some collection →
  disablePlugin collectionId pluginName m
  = (throw TypeError, mark_disabled collectionId pluginName m).
Proof. apply disablePlugin_loaded. Qed.

(** A property kept by the two marks is kept by [enablePlugin] and
    [disablePlugin]. *)
Lemma enablePlugin_preserves P c n :
  (∀ m, P m → P (mark_enabled c n m)) → preserves P (enablePlugin c n).
Proof.
  intros HP m Hm. destruct (Map_get c (collections m)) as [col|] eqn:Hc.
  - rewrite (enablePlugin_marks _ _ _ _ Hc). by apply HP.
  - by rewrite (enablePlugin_not_loaded _ _ _ Hc).
Qed.

Lemma disablePlugin_preserves P c n :
  (∀ m, P m → P (mark_disabled c n m)) → preserves P (disablePlugin c n).
Proof.
  intros HP m Hm. destruct (Map_get c (collections m)) as [col|] eqn:Hc.
  - rewrite (disablePlugin_marks _ _ _ _ Hc). by apply HP.
  - by rewrite (disablePlugin_not_loaded _ _ _ Hc).
Qed.

(** ... and then by every activation method: they are built from those two
    and never call the registry. *)
Lemma activation_preserves P :
  (∀ c n m, P m → P (mark_enabled c n m)) →
  (∀ c n m, P m → P (mark_disabled c n m)) →
  ∀ op m, activation_op op = true → P m → P (run_op m op).
Proof.
  intros Hen Hdis op m Hop Hm.
  assert (∀ c n, preserves P (enablePlugin c n)) as HE
    by (intros c n; apply enablePlugin_preserves, Hen).
  assert (∀ c n, preserves P (disablePlugin c n)) as HD
    by (intros c n; apply disablePlugin_preserves, Hdis).
  destruct op; try discriminate Hop; simpl.
  - by apply HE.
  - by apply HD.
  - destruct (Map_get collectionId (collections m)) as [col|] eqn:Hc.
    + rewrite (togglePlugin_loaded _ _ _ _ Hc). simpl. by apply HD.
    + by rewrite (togglePlugin_not_loaded _ _ _ Hc).
  - revert m Hm. unfold enableAll.
    apply preserves_bind; [apply preserves_this|]. intros m0.
    destruct (Map_get _ _) as [col|]; [|apply preserves_raise].
    apply preserves_for_each. intros entry.
    apply preserves_bind; [apply preserves_lift|]. intros plugin. apply HE.
  - revert m Hm. unfold disableAll.
    apply preserves_bind; [apply preserves_this|]. intros m0.
    destruct (Map_get _ _) as [col|]; [|apply preserves_raise].
    apply preserves_for_each. intros entry.
    apply preserves_bind; [apply preserves_lift|]. intros plugin.
    apply preserves_try_catch; [apply HD | apply preserves_ret].
  - revert m Hm. unfold enableCategory.
    apply preserves_bind; [apply preserves_this|]. intros m0.
    apply preserves_for_each. intros [c col].
    apply preserves_for_each. intros entry.
    case_bool_decide; [|apply preserves_ret].
    apply preserves_bind; [apply preserves_lift|]. intros plugin.
    apply preserves_try_catch; [apply HE | apply preserves_ret].
  - revert m Hm. unfold disableCategory.
    apply preserves_bind; [apply preserves_this|]. intros m0.
    apply preserves_for_each. intros [c col].
    apply preserves_for_each. intros entry.
    case_bool_decide; [|apply preserves_ret].
    apply preserves_bind; [apply preserves_lift|]. intros plugin.
    apply preserves_try_catch; [apply HD | apply preserves_ret].
Qed.

Lemma loaded_has_sets_run_op m op : loaded_has_sets m → loaded_has_sets (run_op m op).
Proof.
  intros Hm.
  destruct (activation_op op) eqn:Hact.
  { revert Hm. apply activation_preserves; [| |done].
    - intros c n m0 Hm0 c' col' Hc'. simpl in *.
      destruct (Hm0 c' col' Hc') as [HE HD].
      rewrite !lookup_alter. case_decide; [subst c'|done].
      by rewrite !fmap_is_Some.
    - intros c n m0 Hm0 c' col' Hc'. simpl in *.
      destruct (Hm0 c' col' Hc') as [HE HD].
      rewrite !lookup_alter. case_decide; [subst c'|done].
      by rewrite !fmap_is_Some. }
  destruct op; try discriminate Hact; simpl.
  - destruct (Map_has (col_id collection) (collections m)) eqn:Hc.
    + by rewrite (loadCollection_loaded _ _ Hc).
    + destruct (loadCollection_frame collection m Hc) as (H1 & H2 & H3 & _).
      intros c col'. rewrite H1, H2, H3, !lookup_insert.
      case_decide as Hid; [by split; eexists|].
      rewrite (Map_get_set_ne _ _ _ _ Hid). apply Hm.
  - destruct (Map_get collectionId (collections m)) as [col|] eqn:Hc.
    + rewrite (unloadCollection_loaded _ _ _ Hc). unfold bind at 1.
      destruct (unregister_all_frame (plugins col) m) as (H1 & H2 & H3 & _).
      destruct (unregister_all (plugins col) m) as [[e|[]] m1]; simpl in *.
      * intros c col'. rewrite H1, H2, H3. apply Hm.
      * intros c col'. simpl. rewrite H1, H2, H3, !lookup_delete.
        case_decide as Hid.
        -- subst c. by rewrite Map_get_delete_eq.
        -- rewrite (Map_get_delete_ne _ _ _ Hid). apply Hm.
    + by rewrite (unloadCollection_not_loaded _ _ Hc).
  - exact Hm.
  - exact Hm.
  - intros c col' Hc'. simpl in *. rewrite !import_lookup.
    destruct (Hm c col' Hc') as [HE HD].
    split; [by destruct (st_enabledPlugins state !! c)
           | by destruct (st_disabledPlugins state !! c)].
Qed.

End Activation.

(** X7: from a new manager, after any sequence of calls every loaded
    collection has both of its override sets, so the optional accesses
    [enabledOverrides.get(id)?.] and [disabledOverrides.get(id)?.] of
    [enablePlugin] and [disablePlugin] never skip their write. *)
Theorem loaded_collections_have_override_sets {R} `{!PluginRegistry R}
    (reg : R) (auto : option bool) (ops : list Op) :
  loaded_has_sets (run_ops (new_manager reg auto) ops).
Proof.
  assert (∀ m : Manager R, loaded_has_sets m → loaded_has_sets (run_ops m ops)) as Hall.
  { induction ops as [|op ops IH]; intros m Hm; [done|].
    simpl. apply IH. by apply loaded_has_sets_run_op. }
  apply Hall. intros c col Hc. done.
Qed.

(** X8: the activation methods ([enablePlugin], [disablePlugin],
    [togglePlugin], [enableAll], [disableAll], [enableCategory],
    [disableCategory]) leave the registry, the loaded collections and the
    plugin settings untouched: none of them registers or unregisters a
    plugin. *)
Theorem activation_never_reaches_registry {R} `{!PluginRegistry R}
    (m : Manager R) (op : Op) :
  activation_op op = true →
  registry (run_op m op) = registry m
  ∧ collections (run_op m op) = collections m
  ∧ pluginSettings (run_op m op) = pluginSettings m.
Proof.
  intros Hop.
  apply (activation_preserves
           (λ m', registry m' = registry m
                  ∧ collections m' = collections m
                  ∧ pluginSettings m' = pluginSettings m)); done.
Qed.

Lemma activation_never_reaches_registry_witness :
  activation_op (OpDisableAll "pipeline") = true
  ∧ registry (run_op pipeline_loaded (OpDisableAll "pipeline")) = registry pipeline_loaded
  ∧ collections (run_op pipeline_loaded (OpDisableAll "pipeline"))
    = collections pipeline_loaded
  ∧ pluginSettings (run_op pipeline_loaded (OpDisableAll "pipeline"))
    = pluginSettings pipeline_loaded.
Proof.
  split; [reflexivity|].
  exact (activation_never_reaches_registry pipeline_loaded (OpDisableAll "pipeline") eq_refl).
Defined.

(** *** Bulk operations *)

Section Marks.
Context {R : Type} `{!PluginRegistry R}.
Implicit Types (m : Manager R) (marks : list (string * string)).

Lemma marked_names_cons c n marks c' :
  marked_names ((c, n) :: marks) c'
  = (if bool_decide (c = c') then {[n]} else ∅) ∪ marked_names marks c'.
Proof.
  unfold marked_names. rewrite bind_cons, list_to_set_app_L. simpl.
  case_bool_decide; [|done]. simpl. by rewrite (right_id_L ∅ (∪)).
Qed.

(** A run of enabling marks, seen from one collection id. *)
Lemma foldl_mark_enabled marks : ∀ m,
  let m' := foldl (λ m cn, mark_enabled cn.1 cn.2 m) m marks in
  (∀ c, enabledOverrides m' !! c
        = (λ s, marked_names marks c ∪ s) <$> enabledOverrides m !! c)
  ∧ (∀ c, disabledOverrides m' !! c
          = (λ s, s ∖ marked_names marks c) <$> disabledOverrides m !! c)
  ∧ collections m' = collections m
  ∧ registry m' = registry m
  ∧ pluginSettings m' = pluginSettings m.
Proof.
  induction marks as [|[c0 n0] marks IH]; intros m; simpl.
  - repeat split; intros c.
    + destruct (enabledOverrides m !! c) as [s|]; simpl; [|done].
      f_equal. unfold marked_names. simpl. by rewrite (left_id_L ∅ (∪)).
    + destruct (disabledOverrides m !! c) as [s|]; simpl; [|done].
      f_equal. unfold marked_names. simpl. by rewrite difference_empty_L.
  - destruct (IH (mark_enabled c0 n0 m)) as (HE & HD & HC & HR & HS).
    repeat split; [| |done..]; intros c.
    + rewrite HE, marked_names_cons. simpl. rewrite lookup_alter.
      case_decide as Hc.
      * subst c0. rewrite bool_decide_eq_true_2 by done.
        destruct (enabledOverrides m !! c) as [s|]; simpl; [|done].
        f_equal. apply set_eq. intros x. rewrite !elem_of_union. tauto.
      * rewrite bool_decide_eq_false_2 by done.
        destruct (enabledOverrides m !! c) as [s|]; simpl; [|done].
        f_equal. apply set_eq. intros x. rewrite !elem_of_union, elem_of_empty. tauto.
    + rewrite HD, marked_names_cons. simpl. rewrite lookup_alter.
      case_decide as Hc.
      * subst c0. rewrite bool_decide_eq_true_2 by done.
        destruct (disabledOverrides m !! c) as [s|]; simpl; [|done].
        f_equal. apply set_eq. intros x.
        rewrite !elem_of_difference, elem_of_union. tauto.
      * rewrite bool_decide_eq_false_2 by done.
        destruct (disabledOverrides m !! c) as [s|]; simpl; [|done].
        f_equal. apply set_eq. intros x.
        rewrite !elem_of_difference, elem_of_union, elem_of_empty. tauto.
Qed.

Lemma foldl_mark_disabled marks : ∀ m,
  let m' := foldl (λ m cn, mark_disabled cn.1 cn.2 m) m marks in
  (∀ c, enabledOverrides m' !! c
        = (λ s, s ∖ marked_names marks c) <$> enabledOverrides m !! c)
  ∧ (∀ c, disabledOverrides m' !! c
          = (λ s, marked_names marks c ∪ s) <$> disabledOverrides m !! c)
  ∧ collections m' = collections m
  ∧ registry m' = registry m
  ∧ pluginSettings m' = pluginSettings m.
Proof.
  induction marks as [|[c0 n0] marks IH]; intros m; simpl.
  - repeat split; intros c.
    + destruct (enabledOverrides m !! c) as [s|]; simpl; [|done].
      f_equal. unfold marked_names. simpl. by rewrite difference_empty_L.
    + destruct (disabledOverrides m !! c) as [s|]; simpl; [|done].
      f_equal. unfold marked_names. simpl. by rewrite (left_id_L ∅ (∪)).
  - destruct (IH (mark_disabled c0 n0 m)) as (HE & HD & HC & HR & HS).
    repeat split; [| |done..]; intros c.
    + rewrite HE, marked_names_cons. simpl. rewrite lookup_alter.
      case_decide as Hc.
      * subst c0. rewrite bool_decide_eq_true_2 by done.
        destruct (enabledOverrides m !! c) as [s|]; simpl; [|done].
        f_equal. apply set_eq. intros x.
        rewrite !elem_of_difference, elem_of_union. tauto.
      * rewrite bool_decide_eq_false_2 by done.
        destruct (enabledOverrides m !! c) as [s|]; simpl; [|done].
        f_equal. apply set_eq. intros x.
        rewrite !elem_of_difference, elem_of_union, elem_of_empty. tauto.
    + rewrite HD, marked_names_cons. simpl. rewrite lookup_alter.
      case_decide as Hc.
      * subst c0. rewrite bool_decide_eq_true_2 by done.
        destruct (disabledOverrides m !! c) as [s|]; simpl; [|done].
        f_equal. apply set_eq. intros x. rewrite !elem_of_union. tauto.
      * rewrite bool_decide_eq_false_2 by done.
        destruct (disabledOverrides m !! c) as [s|]; simpl; [|done].
        f_equal. apply set_eq. intros x. rewrite !elem_of_union, elem_of_empty. tauto.
Qed.

End Marks.

Section BulkLoops.
Context {R : Type} `{!PluginRegistry R}.
Implicit Types (m : Manager R) (work : list (string * PluginCollectionEntry)).

(** The method called for each plugin ([enablePlugin] or [disablePlugin]) and
    what it writes before it throws. *)
Variable op : string → string → Async R unit.
Variable mark : string → string → Manager R → Manager R.
Hypothesis op_marks : ∀ c n m col,
  Map_get c (collections m) = Some col → op c n m = (throw TypeError, mark c n m).
Hypothesis mark_collections : ∀ c n m, collections (mark c n m) = collections m.

Lemma foldl_mark_collections (marks : list (string * string)) : ∀ m,
  collections (foldl (λ m cn, mark cn.1 cn.2 m) m marks) = collections m.
Proof.
  induction marks as [|cn marks IH]; intros m; simpl; [done|].
  by rewrite IH, mark_collections.
Qed.

(** A loop that calls the method for every pair and swallows what it throws
    writes every mark and ends normally. *)
Lemma swallow_loop work : ∀ m,
  (∀ ce, ce ∈ work → is_Some (Map_get ce.1 (collections m))) →
  all_resolve work.*2 →
  for_each work (λ ce,
    bind (lift (resolve_metadata (VEntry ce.2))) (λ plugin,
      try_catch (op ce.1 (metadata_name plugin)) (ret tt))) m
  = (ok tt, foldl (λ m cn, mark cn.1 cn.2 m) m (work_marks work)).
Proof.
  induction work as [|[c entry] work IH]; intros m Hloaded Hres; [done|].
  apply Forall_cons in Hres as [[p Hp] Hres].
  destruct (Hloaded (c, entry)) as [col Hc]; [apply list_elem_of_here|].
  simpl in Hp, Hc. unfold work_marks. rewrite bind_cons. simpl. rewrite Hp.
  unfold bind at 1. unfold bind at 1. unfold lift at 1. unfold try_catch at 1.
  simpl. rewrite (op_marks _ _ _ _ Hc). simpl.
  apply IH; [|done].
  intros ce Hce. rewrite mark_collections. apply Hloaded. by apply list_elem_of_further.
Qed.

Lemma for_each_if {A} (f : A → bool) (body : A → Async R unit) (l : list A) : ∀ m,
  for_each l (λ x, if f x then body x else ret tt) m = for_each (List.filter f l) body m.
Proof.
  induction l as [|x l IH]; intros m; [done|]. simpl.
  destruct (f x); simpl.
  - unfold bind. destruct (body x m) as [[e|[]] m1]; [done | apply IH].
  - apply IH.
Qed.

Lemma for_each_tagged (c : string) (body : string * PluginCollectionEntry → Async R unit)
    (l : list PluginCollectionEntry) : ∀ m,
  for_each l (λ entry, body (c, entry)) m = for_each ((λ entry, (c, entry)) <$> l) body m.
Proof.
  induction l as [|x l IH]; intros m; [done|]. simpl.
  unfold bind. destruct (body (c, x) m) as [[e|[]] m1]; [done | apply IH].
Qed.

Lemma filter_tagged (f : PluginCollectionEntry → bool) (c : string)
    (l : list PluginCollectionEntry) :
  (λ entry, (c, entry)) <$> List.filter f l
  = List.filter (λ ce, f ce.2) ((λ entry, (c, entry)) <$> l).
Proof.
  induction l as [|x l IH]; [done|]. simpl.
  destruct (f x); simpl; [f_equal|]; exact IH.
Qed.

(** The two nested loops of the category methods, for entries taken in the
    given order within each collection. *)
Lemma category_loop (cat : PluginCategory)
    (order : list PluginCollectionEntry → list PluginCollectionEntry)
    (cols : list (string * PluginCollection)) : ∀ m,
  (∀ c col, (c, col) ∈ cols → is_Some (Map_get c (collections m))) →
  Forall (λ cc, all_resolve (order (plugins cc.2))) cols →
  for_each cols (λ '(c, col),
    for_each (order (plugins col)) (λ entry,
      if bool_decide (category entry = cat)
      then bind (lift (resolve_metadata (VEntry entry))) (λ plugin,
             try_catch (op c (metadata_name plugin)) (ret tt))
      else ret tt)) m
  = (ok tt,
     foldl (λ m cn, mark cn.1 cn.2 m) m
       (category_marks cat
          (cols ≫= λ cc, (λ entry, (cc.1, entry)) <$> order (plugins cc.2)))).
Proof.
  induction cols as [|[c col] cols IH]; intros m Hloaded Hres; [done|].
  apply Forall_cons in Hres as [Hcol Hres]. simpl in Hcol.
  cbn [for_each]. unfold bind at 1.
  rewrite (for_each_if (λ entry, bool_decide (category entry = cat))
             (λ entry, bind (lift (resolve_metadata (VEntry entry))) (λ plugin,
                         try_catch (op c (metadata_name plugin)) (ret tt)))).
  rewrite (for_each_tagged c
             (λ ce, bind (lift (resolve_metadata (VEntry ce.2))) (λ plugin,
                      try_catch (op ce.1 (metadata_name plugin)) (ret tt)))).
  rewrite swallow_loop.
  - rewrite IH; [| |done].
    + unfold category_marks, work_marks.
      rewrite bind_cons, List.filter_app, bind_app, foldl_app. simpl.
      by rewrite filter_tagged.
    + intros c' col' Hin. rewrite foldl_mark_collections.
      apply (Hloaded c' col'). by apply list_elem_of_further.
  - intros ce [entry [-> _]]%list_elem_of_fmap. simpl.
    apply (Hloaded c col). apply list_elem_of_here.
  - rewrite <- list_fmap_compose. simpl. rewrite list_fmap_id.
    unfold all_resolve in *. rewrite Forall_forall in Hcol.
    apply Forall_forall. intros entry Hin. apply Hcol.
    apply list_elem_of_In. apply list_elem_of_In in Hin.
    apply filter_In in Hin as [Hin _]. exact Hin.
Qed.

End BulkLoops.

Section BulkOperations.
Context {R : Type} `{!PluginRegistry R}.
Implicit Types (m : Manager R) (work : list (string * PluginCollectionEntry)).

Lemma elem_of_marked_names (marks : list (string * string)) c n :
  n ∈ marked_names marks c ↔ (c, n) ∈ marks.
Proof.
  unfold marked_names. rewrite elem_of_list_to_set, list_elem_of_bind. split.
  - intros ([c' n'] & Hin & Hmark). simpl in Hin.
    case_bool_decide; [|by apply elem_of_nil in Hin].
    apply list_elem_of_singleton in Hin. by simplify_eq.
  - intros Hin. exists (c, n). split; [|done]. simpl.
    rewrite bool_decide_eq_true_2 by done. apply list_elem_of_here.
Qed.

Lemma elem_of_work_marks work c n :
  (c, n) ∈ work_marks work
  ↔ ∃ entry p, (c, entry) ∈ work
               ∧ resolve_metadata (VEntry entry) = ok p ∧ metadata_name p = n.
Proof.
  unfold work_marks. rewrite list_elem_of_bind. split.
  - intros ([c' entry] & Hin & Hwork). simpl in Hin.
    destruct (resolve_metadata (VEntry entry)) as [e|p] eqn:Hp;
      [by apply elem_of_nil in Hin|].
    apply list_elem_of_singleton in Hin. simplify_eq. by exists entry, p.
  - intros (entry & p & Hin & Hp & <-). exists (c, entry). split; [|done].
    simpl. rewrite Hp. apply list_elem_of_here.
Qed.

Lemma elem_of_category_marks cat work c n :
  (c, n) ∈ category_marks cat work
  ↔ ∃ entry p, (c, entry) ∈ work ∧ category entry = cat
               ∧ resolve_metadata (VEntry entry) = ok p ∧ metadata_name p = n.
Proof.
  unfold category_marks. rewrite elem_of_work_marks. split.
  - intros (entry & p & Hin & Hp & Hn). exists entry, p.
    apply list_elem_of_In, filter_In in Hin as [Hin Hcat].
    apply bool_decide_eq_true in Hcat. by rewrite list_elem_of_In.
  - intros (entry & p & Hin & Hcat & Hp & Hn). exists entry, p.
    split; [|done]. apply list_elem_of_In, filter_In. split.
    + by apply list_elem_of_In.
    + by apply bool_decide_eq_true.
Qed.

(** The pairs of collection id and entry, whatever the order within a
    collection. *)
Lemma elem_of_tagged (order : list PluginCollectionEntry → list PluginCollectionEntry)
    (cols : list (string * PluginCollection)) c entry :
  (∀ l x, x ∈ order l ↔ x ∈ l) →
  (c, entry) ∈ (cols ≫= λ cc, (λ entry, (cc.1, entry)) <$> order (plugins cc.2))
  ↔ ∃ col, (c, col) ∈ cols ∧ entry ∈ plugins col.
Proof.
  intros Horder. rewrite list_elem_of_bind. split.
  - intros ([c' col] & Hin & Hcols). simpl in Hin.
    apply list_elem_of_fmap in Hin as (entry' & Heq & Hin). simplify_eq.
    exists col. by rewrite <- Horder.
  - intros (col & Hcols & Hin). exists (c, col). split; [|done]. simpl.
    apply list_elem_of_fmap. exists entry. by rewrite Horder.
Qed.

Lemma discovery_tagged m :
  discovery m = collections m ≫= λ cc, (λ entry, (cc.1, entry)) <$> plugins cc.2.
Proof.
  unfold discovery. induction (collections m) as [|[c col] cols IH]; [done|].
  rewrite !bind_cons, IH. f_equal.
Qed.

(** The names marked for a collection id do not depend on the order in which
    the entries of a collection are visited. *)
Lemma marked_names_order cat
    (order : list PluginCollectionEntry → list PluginCollectionEntry) m c :
  (∀ l x, x ∈ order l ↔ x ∈ l) →
  marked_names
    (category_marks cat
       (collections m ≫= λ cc, (λ entry, (cc.1, entry)) <$> order (plugins cc.2))) c
  = marked_names (category_marks cat (discovery m)) c.
Proof.
  intros Horder. apply set_eq. intros n.
  rewrite !elem_of_marked_names, !elem_of_category_marks, discovery_tagged.
  split; intros (entry & p & Hin & Hrest); exists entry, p; (split; [|done]).
  - apply (elem_of_tagged order) in Hin; [|done].
    by apply (elem_of_tagged (λ l, l)).
  - apply (elem_of_tagged (λ l, l)) in Hin; [|done].
    by apply (elem_of_tagged order).
Qed.

Lemma all_resolve_collections m
    (order : list PluginCollectionEntry → list PluginCollectionEntry) :
  (∀ l x, x ∈ order l ↔ x ∈ l) →
  all_resolve (discovery m).*2 →
  Forall (λ cc, all_resolve (order (plugins cc.2))) (collections m).
Proof.
  intros Horder Hall. unfold all_resolve in *. rewrite Forall_forall in Hall.
  apply Forall_forall. intros [c col] Hcol. apply Forall_forall. intros entry Hin.
  simpl in Hin. rewrite Horder in Hin.
  apply Hall. apply list_elem_of_fmap.
  exists (c, entry). split; [done|].
  rewrite discovery_tagged. apply (elem_of_tagged (λ l, l)); [done|].
  by exists col.
Qed.

End BulkOperations.

(** X9: [enableAll] on a loaded collection never gets past the first
    plugin: with no plugins it returns; otherwise it resolves the first one
    and, if that succeeds, records it as explicitly enabled and throws the
    TypeError of [enablePlugin].  The remaining plugins are not visited. *)
Theorem enableAll_stops_at_first_plugin {R} `{!PluginRegistry R}
    (m : Manager R) (collectionId : string) (collection : PluginCollection) :
  Map_get collectionId (collections m) = Some collection →
  enableAll collectionId m
  = match plugins collection with
    | [] => (ok tt, m)
    | entry :: _ =>
        match resolve_metadata (VEntry entry) with
        | inl e => (throw e, m)
        | inr p => (throw TypeError, mark_enabled collectionId (metadata_name p) m)
        end
    end.
Proof.
  intros Hc. unfold enableAll. unfold bind at 1, this. simpl. rewrite Hc.
  destruct (plugins collection) as [|entry rest]; [done|].
  simpl. unfold bind at 1. unfold bind at 1, lift.
  destruct (resolve_metadata (VEntry entry)) as [e|p]; [done|].
  by rewrite (enablePlugin_marks _ _ _ _ Hc).
Qed.

Lemma enableAll_stops_at_first_plugin_witness :
  Map_get "core" (collections core_loaded) = Some core
  ∧ enableAll "core" core_loaded
    = match plugins core with
      | [] => (ok tt, core_loaded)
      | entry :: _ =>
          match resolve_metadata (VEntry entry) with
          | inl e => (throw e, core_loaded)
          | inr p => (throw TypeError, mark_enabled "core" (metadata_name p) core_loaded)
          end
      end.
Proof.
  assert (Map_get "core" (collections core_loaded) = Some core) as Hc
    by (vm_compute; reflexivity).
  split; [exact Hc|]. exact (enableAll_stops_at_first_plugin core_loaded "core" core Hc).
Defined.

(** X10: [disableAll] on a loaded collection whose plugin references all
    resolve returns normally (it swallows what [disablePlugin] throws): every
    plugin name of the collection is then explicitly disabled and none is
    explicitly enabled, the override sets of other collection ids are
    unchanged, and the registry, the collections and the settings are
    untouched. *)
Theorem disableAll_marks_every_plugin {R} `{!PluginRegistry R}
    (m : Manager R) (collectionId : string) (collection : PluginCollection) :
  Map_get collectionId (collections m) = Some collection →
  all_resolve (plugins collection) →
  let names : gset string := list_to_set (entry_names (plugins collection)) in
  let r := disableAll collectionId m in
  r.1 = ok tt
  ∧ enabledOverrides r.2 = alter (λ s, s ∖ names) collectionId (enabledOverrides m)
  ∧ disabledOverrides r.2 = alter (λ s, names ∪ s) collectionId (disabledOverrides m)
  ∧ registry r.2 = registry m
  ∧ collections r.2 = collections m
  ∧ pluginSettings r.2 = pluginSettings m.
Proof.
  intros Hc Hall names r.
  assert (r = (ok tt,
               foldl (λ m cn, mark_disabled cn.1 cn.2 m) m
                 (work_marks ((λ entry, (collectionId, entry))
                              <$> reverse (plugins collection))))) as Hr.
  { subst r. unfold disableAll. unfold bind at 1, this. simpl. rewrite Hc.
    rewrite (for_each_tagged collectionId
               (λ ce, bind (lift (resolve_metadata (VEntry ce.2))) (λ plugin,
                        try_catch (disablePlugin ce.1 (metadata_name plugin)) (ret tt)))).
    apply (swallow_loop disablePlugin mark_disabled).
    - intros c n m0 col Hc0. by apply (disablePlugin_marks _ _ col).
    - done.
    - intros ce [entry [-> _]]%list_elem_of_fmap. simpl. by rewrite Hc.
    - rewrite <- list_fmap_compose. simpl. rewrite list_fmap_id.
      unfold all_resolve in *. by apply Forall_reverse. }
  rewrite Hr. simpl.
  destruct (foldl_mark_disabled
              (work_marks ((λ entry, (collectionId, entry))
                           <$> reverse (plugins collection))) m)
    as (HE & HD & HC & HR & HS).
  assert (∀ c, marked_names
                 (work_marks ((λ entry, (collectionId, entry))
                              <$> reverse (plugins collection))) c
               = if decide (collectionId = c) then names else ∅) as Hnames.
  { intros c. apply set_eq. intros n. rewrite elem_of_marked_names, elem_of_work_marks.
    subst names. split.
    - intros (entry & p & Hin & Hp & Hn).
      apply list_elem_of_fmap in Hin as (entry' & Heq & Hin). simplify_eq.
      rewrite decide_True by done. apply elem_of_list_to_set.
      unfold entry_names. apply list_elem_of_bind. exists entry'.
      rewrite Hp. split; [apply list_elem_of_here | by apply elem_of_reverse].
    - case_decide as Hid; [|by intros ?%elem_of_empty]. subst c.
      intros Hin. apply elem_of_list_to_set in Hin. unfold entry_names in Hin.
      apply list_elem_of_bind in Hin as (entry & Hn & Hin).
      destruct (resolve_metadata (VEntry entry)) as [e|p] eqn:Hp;
        [by apply elem_of_nil in Hn|].
      apply list_elem_of_singleton in Hn. exists entry, p.
      split; [|done]. apply list_elem_of_fmap. exists entry.
      split; [done | by apply elem_of_reverse]. }
  split; [done|]. split; [|split; [|done]].
  - apply map_eq. intros c. rewrite HE, Hnames, lookup_alter.
    case_decide; [by subst c|].
    destruct (enabledOverrides m !! c); simpl; [|done].
    by rewrite difference_empty_L.
  - apply map_eq. intros c. rewrite HD, Hnames, lookup_alter.
    case_decide; [by subst c|].
    destruct (disabledOverrides m !! c); simpl; [|done].
    by rewrite (left_id_L ∅ (∪)).
Qed.

Lemma disableAll_marks_every_plugin_witness :
  let names : gset string := list_to_set (entry_names (plugins pipeline)) in
  let r := disableAll "pipeline" pipeline_loaded in
  Map_get "pipeline" (collections pipeline_loaded) = Some pipeline
  ∧ all_resolve (plugins pipeline)
  ∧ r.1 = ok tt
  ∧ enabledOverrides r.2
    = alter (λ s, s ∖ names) "pipeline" (enabledOverrides pipeline_loaded)
  ∧ disabledOverrides r.2
    = alter (λ s, names ∪ s) "pipeline" (disabledOverrides pipeline_loaded)
  ∧ registry r.2 = registry pipeline_loaded
  ∧ collections r.2 = collections pipeline_loaded
  ∧ pluginSettings r.2 = pluginSettings pipeline_loaded.
Proof.
  assert (Map_get "pipeline" (collections pipeline_loaded) = Some pipeline) as Hc
    by (vm_compute; reflexivity).
  assert (all_resolve (plugins pipeline)) as Hall
    by (repeat constructor; eexists; reflexivity).
  split; [exact Hc|]. split; [exact Hall|].
  exact (disableAll_marks_every_plugin pipeline_loaded "pipeline" pipeline Hc Hall).
Defined.

Section CategoryOperations.
Context {R : Type} `{!PluginRegistry R}.
Implicit Types (m : Manager R).

Lemma enableCategory_resolving cat m :
  all_resolve (discovery m).*2 →
  enableCategory cat m
  = (ok tt,
     foldl (λ m cn, mark_enabled cn.1 cn.2 m) m
       (category_marks cat
          (collections m ≫= λ cc, (λ entry, (cc.1, entry)) <$> plugins cc.2))).
Proof.
  intros Hall. unfold enableCategory. unfold bind at 1, this. simpl.
  apply (category_loop enablePlugin mark_enabled) with (order := λ l, l).
  - intros c n m0 col Hc0. by apply (enablePlugin_marks _ _ col).
  - done.
  - intros c col Hin. by apply (Map_get_elem_of _ col).
  - by apply (all_resolve_collections m (λ l, l)).
Qed.

Lemma disableCategory_resolving cat m :
  all_resolve (discovery m).*2 →
  disableCategory cat m
  = (ok tt,
     foldl (λ m cn, mark_disabled cn.1 cn.2 m) m
       (category_marks cat
          (collections m ≫= λ cc, (λ entry, (cc.1, entry)) <$> reverse (plugins cc.2)))).
Proof.
  intros Hall. unfold disableCategory. unfold bind at 1, this. simpl.
  apply (category_loop disablePlugin mark_disabled) with (order := reverse).
  - intros c n m0 col Hc0. by apply (disablePlugin_marks _ _ col).
  - done.
  - intros c col Hin. by apply (Map_get_elem_of _ col).
  - apply (all_resolve_collections m reverse); [|done].
    intros l x. apply elem_of_reverse.
Qed.

End CategoryOperations.

(** X11: when every plugin reference of the loaded collections resolves,
    [enableCategory] returns normally and, in every collection, records the
    names of the entries of that category as explicitly enabled and removes
    them from the explicitly disabled names; other names, the registry, the
    collections and the settings are untouched. *)
Theorem enableCategory_marks_the_category {R} `{!PluginRegistry R}
    (m : Manager R) (cat : PluginCategory) :
  all_resolve (discovery m).*2 →
  let names := marked_names (category_marks cat (discovery m)) in
  let r := enableCategory cat m in
  r.1 = ok tt
  ∧ (∀ c, enabledOverrides r.2 !! c = (λ s, names c ∪ s) <$> enabledOverrides m !! c)
  ∧ (∀ c, disabledOverrides r.2 !! c = (λ s, s ∖ names c) <$> disabledOverrides m !! c)
  ∧ registry r.2 = registry m
  ∧ collections r.2 = collections m
  ∧ pluginSettings r.2 = pluginSettings m.
Proof.
  intros Hall names r. subst r names. rewrite (enableCategory_resolving _ _ Hall).
  rewrite <- discovery_tagged. simpl.
  destruct (foldl_mark_enabled (category_marks cat (discovery m)) m)
    as (HE & HD & HC & HR & HS).
  done.
Qed.

Lemma enableCategory_marks_the_category_witness :
  let names := marked_names (category_marks provider (discovery security_loaded)) in
  let r := enableCategory provider security_loaded in
  all_resolve (discovery security_loaded).*2
  ∧ r.1 = ok tt
  ∧ (∀ c, enabledOverrides r.2 !! c
          = (λ s, names c ∪ s) <$> enabledOverrides security_loaded !! c)
  ∧ (∀ c, disabledOverrides r.2 !! c
          = (λ s, s ∖ names c) <$> disabledOverrides security_loaded !! c)
  ∧ registry r.2 = registry security_loaded
  ∧ collections r.2 = collections security_loaded
  ∧ pluginSettings r.2 = pluginSettings security_loaded.
Proof.
  assert (all_resolve (discovery security_loaded).*2) as Hall
    by (repeat constructor; eexists; reflexivity).
  split; [exact Hall|].
  exact (enableCategory_marks_the_category security_loaded provider Hall).
Defined.

(** X12: likewise [disableCategory] returns normally and records the names
    of the entries of the category as explicitly disabled, removing them from
    the explicitly enabled names; visiting the entries of each collection in
    reverse order does not change what is recorded. *)
Theorem disableCategory_marks_the_category {R} `{!PluginRegistry R}
    (m : Manager R) (cat : PluginCategory) :
  all_resolve (discovery m).*2 →
  let names := marked_names (category_marks cat (discovery m)) in
  let r := disableCategory cat m in
  r.1 = ok tt
  ∧ (∀ c, enabledOverrides r.2 !! c = (λ s, s ∖ names c) <$> enabledOverrides m !! c)
  ∧ (∀ c, disabledOverrides r.2 !! c = (λ s, names c ∪ s) <$> disabledOverrides m !! c)
  ∧ registry r.2 = registry m
  ∧ collections r.2 = collections m
  ∧ pluginSettings r.2 = pluginSettings m.
Proof.
  intros Hall names r. subst r names. rewrite (disableCategory_resolving _ _ Hall).
  simpl.
  destruct (foldl_mark_disabled
              (category_marks cat
                 (collections m ≫= λ cc,
                    (λ entry, (cc.1, entry)) <$> reverse (plugins cc.2))) m)
    as (HE & HD & HC & HR & HS).
  assert (∀ (l : list PluginCollectionEntry) x, x ∈ reverse l ↔ x ∈ l) as Hrev
    by (intros l x; apply elem_of_reverse).
  split; [done|]. split; [|split; [|done]].
  - intros c. rewrite HE. by rewrite (marked_names_order cat reverse m c Hrev).
  - intros c. rewrite HD. by rewrite (marked_names_order cat reverse m c Hrev).
Qed.

Lemma disableCategory_marks_the_category_witness :
  let names := marked_names (category_marks utility (discovery security_loaded)) in
  let r := disableCategory utility security_loaded in
  all_resolve (discovery security_loaded).*2
  ∧ r.1 = ok tt
  ∧ (∀ c, enabledOverrides r.2 !! c
          = (λ s, s ∖ names c) <$> enabledOverrides security_loaded !! c)
  ∧ (∀ c, disabledOverrides r.2 !! c
          = (λ s, names c ∪ s) <$> disabledOverrides security_loaded !! c)
  ∧ registry r.2 = registry security_loaded
  ∧ collections r.2 = collections security_loaded
  ∧ pluginSettings r.2 = pluginSettings security_loaded.
Proof.
  assert (all_resolve (discovery security_loaded).*2) as Hall
    by (repeat constructor; eexists; reflexivity).
  split; [exact Hall|].
  exact (disableCategory_marks_the_category security_loaded utility Hall).
Defined.

(** *** Settings *)

(** X13: plugin settings are only written by [setPluginSettings],
    [updatePluginSettings] and [importState]; loading, unloading and every
    activation method leave them as they are (they survive the unloading and
    reloading of the collection). *)
Theorem settings_survive_other_operations {R} `{!PluginRegistry R}
    (m : Manager R) (op : Op) :
  settings_op op = false →
  pluginSettings (run_op m op) = pluginSettings m.
Proof.
  intros Hop.
  destruct (activation_op op) eqn:Hact.
  { by apply (activation_preserves (λ m', pluginSettings m' = pluginSettings m)). }
  destruct op; try discriminate Hop; try discriminate Hact; simpl.
  - destruct (Map_has (col_id collection) (collections m)) eqn:Hc.
    + by rewrite (loadCollection_loaded _ _ Hc).
    + by destruct (loadCollection_frame collection m Hc) as (_ & _ & _ & ->).
  - destruct (Map_get collectionId (collections m)) as [col|] eqn:Hc.
    + rewrite (unloadCollection_loaded _ _ _ Hc). unfold bind at 1.
      destruct (unregister_all_frame (plugins col) m) as (_ & _ & _ & HS).
      by destruct (unregister_all (plugins col) m) as [[e|[]] m1].
    + by rewrite (unloadCollection_not_loaded _ _ Hc).
Qed.

Lemma settings_survive_other_operations_witness :
  settings_op (OpUnloadCollection "core") = false
  ∧ pluginSettings
      (run_op (setPluginSettings "logger" {["level" := SvStr "debug"]} core_loaded)
              (OpUnloadCollection "core"))
    = pluginSettings (setPluginSettings "logger" {["level" := SvStr "debug"]} core_loaded).
Proof.
  split; [reflexivity|].
  exact (settings_survive_other_operations
           (setPluginSettings "logger" {["level" := SvStr "debug"]} core_loaded)
           (OpUnloadCollection "core") eq_refl).
Defined.

(** X14: [setPluginSettings] replaces the settings of the name as a whole
    ([getPluginSettings] then returns exactly what was set), and leaves the
    settings of every other name and the rest of the manager as they are. *)
Theorem setPluginSettings_replaces {R} `{!PluginRegistry R}
    (m : Manager R) (pluginName other : string) (settings : Settings) :
  getPluginSettings (setPluginSettings pluginName settings m) other
  = (if decide (pluginName = other) then settings else getPluginSettings m other)
  ∧ collections (setPluginSettings pluginName settings m) = collections m
  ∧ enabledOverrides (setPluginSettings pluginName settings m) = enabledOverrides m
  ∧ disabledOverrides (setPluginSettings pluginName settings m) = disabledOverrides m
  ∧ registry (setPluginSettings pluginName settings m) = registry m.
Proof.
  repeat split. unfold getPluginSettings, setPluginSettings. simpl.
  rewrite lookup_insert. by case_decide.
Qed.

(** X15: [updatePluginSettings] merges key by key: a key of the new settings
    takes the new value, every other key keeps its stored value; the settings
    of other names are unchanged, and updating twice with the same settings
    is the same as updating once. *)
Theorem updatePluginSettings_merges {R} `{!PluginRegistry R}
    (m : Manager R) (pluginName : string) (settings : Settings) :
  (∀ key,
     getPluginSettings (updatePluginSettings pluginName settings m) pluginName !! key
     = match settings !! key with
       | Some v => Some v
       | None => getPluginSettings m pluginName !! key
       end)
  ∧ (∀ other, other ≠ pluginName →
       getPluginSettings (updatePluginSettings pluginName settings m) other
       = getPluginSettings m other)
  ∧ updatePluginSettings pluginName settings (updatePluginSettings pluginName settings m)
    = updatePluginSettings pluginName settings m.
Proof.
  unfold getPluginSettings, updatePluginSettings. simpl. repeat split.
  - intros key. rewrite lookup_insert_eq. simpl. rewrite lookup_union.
    destruct (settings !! key) as [v|]; simpl.
    + by destruct (default ∅ (pluginSettings m !! pluginName) !! key).
    + by rewrite (left_id None _).
  - intros other Hne. by rewrite lookup_insert_ne.
  - unfold set_pluginSettings. simpl. f_equal.
    rewrite lookup_insert_eq. simpl. rewrite insert_insert_eq. f_equal.
    apply map_eq. intros key. rewrite !lookup_union.
    destruct (settings !! key) as [v|]; simpl; [|by rewrite !(left_id None _)].
    by destruct (default ∅ (pluginSettings m !! pluginName) !! key).
Qed.

(** *** Snapshots *)

Section Snapshots.
Context {R : Type} `{!PluginRegistry R}.
Implicit Types (m : Manager R).

Lemma map_fold_insert_all {A} (stored given : gmap string A) :
  map_fold (λ k v acc, <[k := v]> acc) stored given = given ∪ stored.
Proof.
  apply (map_fold_weak_ind (λ r s, r = s ∪ stored)).
  - by rewrite (left_id_L ∅ (∪)).
  - intros i x s r _ ->. by rewrite insert_union_l.
Qed.

(** The exported object of one override map: the non-empty sets. *)
Lemma export_sets_lookup (overrides : gmap string (gset string)) c :
  map_fold (λ k (X : gset string) acc,
              if bool_decide (0 < size X)%nat then <[k := elements X]> acc else acc)
           (∅ : gmap string (list string)) overrides !! c
  = overrides !! c ≫= λ X, if bool_decide (0 < size X)%nat then Some (elements X) else None.
Proof.
  revert c.
  apply (map_fold_weak_ind
           (λ r s, ∀ c, r !! c
                        = s !! c ≫= λ X : gset string,
                            if bool_decide (0 < size X)%nat
                            then Some (elements X) else None)).
  - intros c. by rewrite !lookup_empty.
  - intros i x s r Hi IH c. rewrite lookup_insert.
    case_decide as Hc.
    + subst c. simpl. case_bool_decide.
      * by rewrite lookup_insert_eq.
      * by rewrite IH, Hi.
    + case_bool_decide; [rewrite lookup_insert_ne by done|]; apply IH.
Qed.

(** Importing an exported override map over [stored]: the non-empty sets of
    the exporting manager, and below them what was stored. *)
Lemma import_export_lookup (overrides stored : gmap string (gset string)) c :
  map_fold (λ k v acc, <[k := list_to_set v]> acc) stored
    (map_fold (λ k (X : gset string) acc,
                 if bool_decide (0 < size X)%nat then <[k := elements X]> acc else acc)
              (∅ : gmap string (list string)) overrides) !! c
  = match overrides !! c with
    | Some X => if bool_decide (X = ∅) then stored !! c else Some X
    | None => stored !! c
    end.
Proof.
  rewrite import_lookup, export_sets_lookup.
  destruct (overrides !! c) as [X|]; simpl; [|done].
  destruct (decide (X = ∅)) as [->|Hne].
  - rewrite (bool_decide_eq_false_2 (0 < size (∅ : gset string))%nat)
      by (rewrite size_empty; lia).
    simpl. by rewrite bool_decide_eq_true_2.
  - rewrite (bool_decide_eq_true_2 (0 < size X)%nat)
      by (assert (size X ≠ 0%nat) by (by intros ?%size_empty_inv%leibniz_equiv); lia).
    simpl. rewrite bool_decide_eq_false_2 by done. by rewrite list_to_set_elements_L.
Qed.

End Snapshots.


(** X17: importing the own export changes nothing:
    [importState (exportState ())] leaves the manager as it is. *)
Theorem importState_of_own_export_is_identity {R} `{!PluginRegistry R} (m : Manager R) :
  importState (exportState m) m = m.
Proof.
  assert (∀ overrides : gmap string (gset string),
            map_fold (λ k v acc, <[k := list_to_set v]> acc) overrides
              (map_fold (λ k (X : gset string) acc,
                           if bool_decide (0 < size X)%nat
                           then <[k := elements X]> acc else acc)
                        (∅ : gmap string (list string)) overrides)
            = overrides) as Hsets.
  { intros overrides. apply map_eq. intros c. rewrite import_export_lookup.
    destruct (overrides !! c) as [X|] eqn:Hc; [|done].
    case_bool_decide; [by subst X | done]. }
  destruct m as [cs en di ps reg auto].
  unfold importState, exportState, set_enabledOverrides, set_disabledOverrides,
    set_pluginSettings. simpl. f_equal.
  - apply Hsets.
  - apply Hsets.
  - rewrite !map_fold_insert_all, (right_id_L ∅ (∪)). apply map_eq. intros n.
    rewrite lookup_union. by destruct (ps !! n).
Qed.



(** *** Listings and statistics *)

Section Listings.
Context {R : Type} `{!PluginRegistry R}.
Implicit Types (m : Manager R).

Lemma listing_where_discovery (keep : PluginCollectionEntry → bool) m :
  map (λ l, (pl_collectionId l, pl_entry l)) (listing_where keep m)
  = List.filter (λ ce, keep ce.2) (discovery m).
Proof.
  unfold listing_where, discovery.
  induction (collections m) as [|[c col] cols IH]; [done|].
  rewrite !bind_cons, map_app, List.filter_app, IH. f_equal.
  induction (plugins col) as [|e es IHe]; [done|].
  rewrite !bind_cons, map_app, List.filter_app, IHe. f_equal.
  simpl. by destruct (keep e).
Qed.


Lemma histogram_count_cons c k v (h : list (PluginCategory * Z)) :
  histogram_count c ((k, v) :: h)
  = if bool_decide (k = c) then v else histogram_count c h.
Proof. unfold histogram_count. simpl. by case_bool_decide. Qed.

Lemma histogram_count_incr c c' (h : list (PluginCategory * Z)) :
  In c (map fst h) →
  histogram_count c (incr_category c' h)
  = histogram_count c h + (if bool_decide (c' = c) then 1 else 0).
Proof.
  induction h as [|[k v] h IH]; [done|]. intros Hin.
  change (incr_category c' ((k, v) :: h))
    with ((if bool_decide (k = c') then (k, v + 1) else (k, v)) :: incr_category c' h).
  destruct (decide (k = c)) as [->|Hkc].
  - rewrite (histogram_count_cons c c v h).
    rewrite (bool_decide_eq_true_2 (c = c)) by done.
    destruct (decide (c = c')) as [<-|Hc'].
    + rewrite (bool_decide_eq_true_2 (c = c)) by done.
      by rewrite histogram_count_cons, bool_decide_eq_true_2.
    + rewrite (bool_decide_eq_false_2 (c = c')) by done.
      rewrite (bool_decide_eq_false_2 (c' = c)) by done.
      rewrite histogram_count_cons, bool_decide_eq_true_2 by done. lia.
  - assert (In c (map fst h)) as Hin' by (by destruct Hin).
    rewrite (histogram_count_cons c k v h).
    rewrite (bool_decide_eq_false_2 (k = c)) by done.
    rewrite <- (IH Hin').
    destruct (bool_decide (k = c'));
      by rewrite histogram_count_cons, bool_decide_eq_false_2.
Qed.

Lemma stats_entries_histogram m collectionId c (entries : list PluginCollectionEntry) :
  ∀ acc,
    In c (map fst (byCategory acc)) →
    histogram_count c (byCategory (foldl (stats_entry m collectionId) acc entries))
    = histogram_count c (byCategory acc)
      + Z.of_nat (length (List.filter (λ entry, bool_decide (category entry = c)) entries)).
Proof.
  induction entries as [|entry entries IH]; intros acc Hin; simpl; [lia|].
  rewrite IH.
  - rewrite stats_entry_counts_enabled. simpl.
    rewrite (histogram_count_incr _ _ _ Hin).
    case_bool_decide; simpl; lia.
  - rewrite stats_entry_counts_enabled. simpl. by rewrite incr_category_keys.
Qed.

Lemma stats_collections_histogram m c (cols : list (string * PluginCollection)) :
  ∀ acc,
    In c (map fst (byCategory acc)) →
    histogram_count c
      (byCategory
         (foldl (λ acc '(collectionId, collection),
                   foldl (stats_entry m collectionId) acc (plugins collection))
                acc cols))
    = histogram_count c (byCategory acc)
      + Z.of_nat
          (length
             (List.filter (λ ce, bool_decide (category ce.2 = c))
                ('(collectionId, collection) ← cols;
                 entry ← plugins collection; [(collectionId, entry)]))).
Proof.
  induction cols as [|[cid col] cols IH]; intros acc Hin; [simpl; lia|].
  rewrite bind_cons, List.filter_app, length_app. simpl. rewrite IH.
  - rewrite (stats_entries_histogram _ _ _ _ _ Hin).
    assert (length (List.filter (λ ce : string * PluginCollectionEntry,
                                   bool_decide (category ce.2 = c))
                      (plugins col ≫= λ entry, [(cid, entry)]))
            = length (List.filter (λ entry, bool_decide (category entry = c))
                        (plugins col))) as ->; [|lia].
    induction (plugins col) as [|e es IHe]; [done|].
    rewrite bind_cons. simpl. case_bool_decide; simpl; by rewrite IHe.
  - destruct (stats_entries_fold m cid (plugins col) acc) as (_ & _ & _ & _ & ->).
    exact Hin.
Qed.

End Listings.


(** X20: the histogram of [getStats] agrees with [getPluginsByCategory]:
    for every category, the count reported under that category is the number
    of plugins listed for it; and the counts of enabled and disabled plugins
    add up to the total. *)
Theorem getStats_histogram_counts_listings {R} `{!PluginRegistry R}
    (m : Manager R) (cat : PluginCategory) :
  histogram_count cat (byCategory (getStats m))
  = Z.of_nat (length (getPluginsByCategory m cat))
  ∧ enabledPlugins (getStats m) + disabledPlugins (getStats m) = totalPlugins (getStats m).
Proof.
  split.
  - assert (length (getPluginsByCategory m cat)
            = length (List.filter (λ ce, bool_decide (category ce.2 = cat)) (discovery m)))
      as ->.
    { unfold getPluginsByCategory.
      rewrite <- (List.length_map (λ l, (pl_collectionId l, pl_entry l))).
      by rewrite listing_where_discovery. }
    unfold getStats, discovery. rewrite stats_collections_histogram.
    + simpl.
      destruct cat;
        (match goal with |- ?h + _ = _ => replace h with 0 by reflexivity end); lia.
    + simpl. destruct cat; tauto.
  - destruct (getStats_counts m) as (_ & _ & -> & -> & _). lia.
Qed.

(** *** More on the search *)

Lemma prefix_refl (s : string) : String.prefix s s = true.
Proof.
  induction s as [|a s IH]; [done|]. simpl.
  destruct (Ascii.ascii_dec a a); [exact IH | done].
Qed.

Lemma includes_refl (s : string) : includes s s = true.
Proof.
  destruct s as [|a s]; [done|].
  change (includes (String a s) (String a s))
    with (String.prefix (String a s) (String a s) || includes s (String a s)).
  by rewrite prefix_refl.
Qed.

Lemma includes_nothing (s : string) : includes s "" = true.
Proof. by destruct s. Qed.

Section SearchMore.
Context {R : Type} `{!PluginRegistry R}.
Implicit Types (m : Manager R) (entry : PluginCollectionEntry).

Lemma searchPlugins_resolving m query :
  Forall (λ ce, ∃ p, resolve_metadata (VEntry ce.2) = ok p) (discovery m) →
  searchPlugins m query
  = ok (Array_sort (λ a b, sr_score b - sr_score a)
          (discovery m ≫= search_found m (toLowerCase query))).
Proof.
  intros Hres. unfold searchPlugins, discovery in *.
  by rewrite (search_collections_found m (toLowerCase query) (collections m) [] Hres).
Qed.

Lemma elem_of_search_results m queryLower r :
  r ∈ Array_sort (λ a b, sr_score b - sr_score a)
        (discovery m ≫= search_found m queryLower)
  ↔ ∃ ce p, ce ∈ discovery m
            ∧ resolve_metadata (VEntry ce.2) = ok p
            ∧ 0 < search_score queryLower ce.2 p
            ∧ r = {| sr_collectionId := ce.1; sr_entry := ce.2;
                     sr_pluginName := metadata_name p;
                     sr_enabled := VPromise (isPluginEnabled m ce.1 (VEntry ce.2));
                     sr_score := search_score queryLower ce.2 p |}.
Proof.
  rewrite Array_sort_perm, list_elem_of_bind. split.
  - intros (ce & Hin & Hce). unfold search_found in Hin.
    destruct (resolve_metadata (VEntry ce.2)) as [e|p] eqn:Hp;
      [by apply elem_of_nil in Hin|].
    destruct (Z.ltb_spec 0 (search_score queryLower ce.2 p)) as [Hlt|Hle];
      [|by apply elem_of_nil in Hin].
    apply list_elem_of_singleton in Hin. by exists ce, p.
  - intros (ce & p & Hce & Hp & Hlt & ->). exists ce. split; [|done].
    unfold search_found. rewrite Hp. unfold ok.
    rewrite (proj2 (Z.ltb_lt _ _) Hlt). apply list_elem_of_here.
Qed.

(** The score is one of the sums of the four weights. *)
Lemma search_score_range queryLower entry p :
  search_score queryLower entry p = 0
  ∨ 20 ≤ search_score queryLower entry p ≤ 175.
Proof.
  unfold search_score.
  repeat match goal with |- context [if ?b then _ else _] => destruct b end; lia.
Qed.

Lemma search_score_tag tag entry p ts :
  tags entry = Some ts → tag ∈ ts →
  30 ≤ search_score (toLowerCase tag) entry p.
Proof.
  intros Hts Hin. unfold search_score. rewrite Hts.
  assert (existsb (λ t, includes (toLowerCase t) (toLowerCase tag)) ts = true) as ->.
  { apply existsb_exists. exists tag. split; [by apply list_elem_of_In|].
    apply includes_refl. }
  repeat match goal with |- context [if ?b then _ else _] => destruct b end; lia.
Qed.

Lemma search_score_category entry p :
  20 ≤ search_score (toLowerCase (category_string (category entry))) entry p.
Proof.
  unfold search_score. rewrite includes_refl.
  repeat match goal with |- context [if ?b then _ else _] => destruct b end; lia.
Qed.

Lemma search_score_empty_query entry p : 95 ≤ search_score "" entry p.
Proof.
  unfold search_score. rewrite !includes_nothing.
  repeat match goal with |- context [if ?b then _ else _] => destruct b end; lia.
Qed.

Lemma elem_of_listing_where (keep : PluginCollectionEntry → bool) m l :
  l ∈ listing_where keep m →
  (pl_collectionId l, pl_entry l) ∈ discovery m ∧ keep (pl_entry l) = true.
Proof.
  intros Hin.
  assert ((pl_collectionId l, pl_entry l)
          ∈ map (λ l, (pl_collectionId l, pl_entry l)) (listing_where keep m)) as Hmap.
  { apply list_elem_of_In.
    apply (in_map (λ l, (pl_collectionId l, pl_entry l))).
    by apply list_elem_of_In. }
  rewrite listing_where_discovery in Hmap.
  apply list_elem_of_In, filter_In in Hmap as [Hd Hk].
  split; [by apply list_elem_of_In | done].
Qed.

Lemma search_entries_outcome m queryLower c (entries : list PluginCollectionEntry) :
  ∀ results,
    match search_entries m queryLower c entries results with
    | inr _ => Forall (λ entry, ∃ p, resolve_metadata (VEntry entry) = ok p) entries
    | inl e => ∃ entry, entry ∈ entries ∧ resolve_metadata (VEntry entry) = throw e
    end.
Proof.
  induction entries as [|entry rest IH]; intros results; [by constructor|].
  cbn [search_entries].
  destruct (resolve_metadata (VEntry entry)) as [e|p] eqn:Hp.
  - exists entry. split; [apply list_elem_of_here | done].
  - cbv zeta.
    match goal with |- context [search_entries _ _ _ rest ?rs] => specialize (IH rs) end.
    destruct (search_entries _ _ _ rest _) as [e|rs].
    + destruct IH as (entry' & Hin & Hthrow). exists entry'.
      split; [by apply list_elem_of_further | done].
    + constructor; [by exists p | done].
Qed.

Lemma search_collections_outcome m queryLower (cols : list (string * PluginCollection)) :
  ∀ results,
    match search_collections m queryLower cols results with
    | inr _ =>
        Forall (λ ce, ∃ p, resolve_metadata (VEntry ce.2) = ok p)
               ('(collectionId, collection) ← cols;
                entry ← plugins collection; [(collectionId, entry)])
    | inl e =>
        ∃ ce, ce ∈ ('(collectionId, collection) ← cols;
                    entry ← plugins collection; [(collectionId, entry)])
              ∧ resolve_metadata (VEntry ce.2) = throw e
    end.
Proof.
  induction cols as [|[c col] cols IH]; intros results; [by constructor|].
  cbn [search_collections]. rewrite bind_cons.
  pose proof (search_entries_outcome m queryLower c (plugins col) results) as Hcol.
  destruct (search_entries _ _ _ (plugins col) _) as [e|rs].
  - destruct Hcol as (entry & Hin & Hthrow). exists (c, entry).
    split; [|done]. apply elem_of_app. left.
    apply list_elem_of_bind. exists entry. split; [apply list_elem_of_here | done].
  - specialize (IH rs). destruct (search_collections _ _ cols rs) as [e|rs'].
    + destruct IH as (ce & Hin & Hthrow). exists ce.
      split; [|done]. apply elem_of_app. by right.
    + apply Forall_app. split; [|done].
      apply Forall_forall. intros ce Hce.
      apply list_elem_of_bind in Hce as (entry & Hce & Hin).
      apply list_elem_of_singleton in Hce as ->. simpl.
      rewrite Forall_forall in Hcol. by apply Hcol.
Qed.

End SearchMore.

(** X21: what the listings find, the search finds too.  When every plugin
    reference resolves, each plugin listed by [getPluginsByTag] for a tag is
    among the results of [searchPlugins] for that tag with a score of at least
    30, and each plugin listed by [getPluginsByCategory] is among the results
    of the search for the name of the category with a score of at least 20. *)
Theorem listed_plugins_are_found_by_search {R} `{!PluginRegistry R}
    (m : Manager R) (cat : PluginCategory) (tag : string) :
  Forall (λ ce, ∃ p, resolve_metadata (VEntry ce.2) = ok p) (discovery m) →
  (∃ results,
     searchPlugins m tag = ok results
     ∧ ∀ l, l ∈ getPluginsByTag m tag →
            ∃ r, r ∈ results ∧ sr_collectionId r = pl_collectionId l
                 ∧ sr_entry r = pl_entry l ∧ 30 ≤ sr_score r)
  ∧ (∃ results,
       searchPlugins m (category_string cat) = ok results
       ∧ ∀ l, l ∈ getPluginsByCategory m cat →
              ∃ r, r ∈ results ∧ sr_collectionId r = pl_collectionId l
                   ∧ sr_entry r = pl_entry l ∧ 20 ≤ sr_score r).
Proof.
  intros Hres. split.
  - rewrite (searchPlugins_resolving _ _ Hres). eexists. split; [done|].
    intros l Hl. apply elem_of_listing_where in Hl as [Hd Hkeep].
    destruct (tags (pl_entry l)) as [ts|] eqn:Hts; [|done].
    apply bool_decide_eq_true in Hkeep.
    rewrite Forall_forall in Hres. destruct (Hres _ Hd) as [p Hp]. simpl in Hp.
    pose proof (search_score_tag tag (pl_entry l) p ts Hts Hkeep) as Hscore.
    eexists. split.
    + apply elem_of_search_results. exists (pl_collectionId l, pl_entry l), p.
      simpl. split; [done|]. split; [done|]. split; [lia | reflexivity].
    + done.
  - rewrite (searchPlugins_resolving _ _ Hres). eexists. split; [done|].
    intros l Hl. apply elem_of_listing_where in Hl as [Hd Hkeep].
    apply bool_decide_eq_true in Hkeep.
    rewrite Forall_forall in Hres. destruct (Hres _ Hd) as [p Hp]. simpl in Hp.
    pose proof (search_score_category (pl_entry l) p) as Hscore.
    rewrite Hkeep in Hscore.
    eexists. split.
    + apply elem_of_search_results. exists (pl_collectionId l, pl_entry l), p.
      simpl. split; [done|]. split; [done|]. split; [lia | reflexivity].
    + done.
Qed.

Lemma listed_plugins_are_found_by_search_witness :
  Forall (λ ce, ∃ p, resolve_metadata (VEntry ce.2) = ok p) (discovery security_loaded)
  ∧ (∃ results,
       searchPlugins security_loaded "debug" = ok results
       ∧ ∀ l, l ∈ getPluginsByTag security_loaded "debug" →
              ∃ r, r ∈ results ∧ sr_collectionId r = pl_collectionId l
                   ∧ sr_entry r = pl_entry l ∧ 30 ≤ sr_score r)
  ∧ (∃ results,
       searchPlugins security_loaded (category_string utility) = ok results
       ∧ ∀ l, l ∈ getPluginsByCategory security_loaded utility →
              ∃ r, r ∈ results ∧ sr_collectionId r = pl_collectionId l
                   ∧ sr_entry r = pl_entry l ∧ 20 ≤ sr_score r).
Proof.
  assert (Forall (λ ce, ∃ p, resolve_metadata (VEntry ce.2) = ok p)
                 (discovery security_loaded)) as Hres
    by (repeat constructor; eexists; reflexivity).
  split; [exact Hres|].
  exact (listed_plugins_are_found_by_search security_loaded utility "debug" Hres).
Defined.

(** X22: the empty query matches everything.  When every plugin reference
    resolves, [searchPlugins("")] returns one result for every entry of every
    loaded collection, each with a score of at least 95 (name 50, description
    25, category 20). *)
Theorem searchPlugins_empty_query_returns_all {R} `{!PluginRegistry R} (m : Manager R) :
  Forall (λ ce, ∃ p, resolve_metadata (VEntry ce.2) = ok p) (discovery m) →
  ∃ results,
    searchPlugins m "" = ok results
    ∧ map (λ r, (sr_collectionId r, sr_entry r)) results ≡ₚ discovery m
    ∧ Forall (λ r, 95 ≤ sr_score r) results.
Proof.
  intros Hres. rewrite (searchPlugins_resolving _ _ Hres). eexists. split; [done|].
  split.
  - change (map (λ r, (sr_collectionId r, sr_entry r)))
      with (fmap (M:=list) (λ r, (sr_collectionId r, sr_entry r))).
    rewrite Array_sort_perm. simpl.
    induction Hres as [|[c entry] work [p Hp] Hres IH]; [done|].
    rewrite bind_cons, fmap_app, IH. simpl in Hp.
    unfold search_found at 1. simpl. rewrite Hp. unfold ok.
    pose proof (search_score_empty_query entry p) as Hscore.
    by rewrite (proj2 (Z.ltb_lt 0 (search_score "" entry p))) by lia.
  - apply Forall_forall. intros r Hr. simpl in Hr.
    apply elem_of_search_results in Hr as (ce & p & _ & _ & _ & ->). simpl.
    apply search_score_empty_query.
Qed.

Lemma searchPlugins_empty_query_returns_all_witness :
  Forall (λ ce, ∃ p, resolve_metadata (VEntry ce.2) = ok p) (discovery security_loaded)
  ∧ ∃ results,
      searchPlugins security_loaded "" = ok results
      ∧ map (λ r, (sr_collectionId r, sr_entry r)) results ≡ₚ discovery security_loaded
      ∧ Forall (λ r, 95 ≤ sr_score r) results.
Proof.
  assert (Forall (λ ce, ∃ p, resolve_metadata (VEntry ce.2) = ok p)
                 (discovery security_loaded)) as Hres
    by (repeat constructor; eexists; reflexivity).
  split; [exact Hres|].
  exact (searchPlugins_empty_query_returns_all security_loaded Hres).
Defined.

(** X23: when [searchPlugins] returns, every plugin reference of the loaded
    collections has resolved, and every result carries the resolved name of
    its plugin and a score between 20 and 175; when it fails, it fails with
    the error of a plugin factory of a loaded collection and returns no
    results at all. *)
Theorem searchPlugins_scores_in_range {R} `{!PluginRegistry R}
    (m : Manager R) (query : string) :
  match searchPlugins m query with
  | inr results =>
      Forall (λ ce, ∃ p, resolve_metadata (VEntry ce.2) = ok p) (discovery m)
      ∧ Forall (λ r, 20 ≤ sr_score r ≤ 175
                     ∧ ∃ p, resolve_metadata (VEntry (sr_entry r)) = ok p
                            ∧ sr_pluginName r = metadata_name p) results
  | inl e =>
      ∃ ce, ce ∈ discovery m ∧ resolve_metadata (VEntry ce.2) = throw e
  end.
Proof.
  pose proof (search_collections_outcome m (toLowerCase query) (collections m) [])
    as Hout.
  unfold searchPlugins.
  destruct (search_collections m (toLowerCase query) (collections m) [])
    as [e|found] eqn:Hfound; [exact Hout|].
  fold (discovery m) in Hout. split; [exact Hout|].
  pose proof (searchPlugins_resolving m query Hout) as Hsearch.
  unfold searchPlugins in Hsearch. rewrite Hfound in Hsearch.
  injection Hsearch as ->.
  apply Forall_forall. intros r Hr.
  apply elem_of_search_results in Hr as (ce & p & _ & Hp & Hpos & ->). simpl.
  split; [|by exists p].
  destruct (search_score_range (toLowerCase query) ce.2 p); lia.
Qed.

(** ** Properties of the configuration adapter *)

Lemma or_string_idem (x : option string) (d : string) :
  or_string (Some (or_string x d)) d = or_string x d.
Proof. by destruct x as [[|a s]|], d. Qed.

Lemma or_string_keeps (s d : string) : or_string (Some s) d = s ↔ s ≠ "" ∨ d = "".
Proof.
  destruct s as [|a s]; simpl.
  - split; [by right | by intros [?| ->]].
  - split; [by left | done].
Qed.

Lemma or_string_nonempty (x : option string) (d : string) :
  d ≠ "" → or_string x d ≠ "".
Proof. by destruct x as [[|a s]|]. Qed.

Lemma cond_strategy (x : option bool) :
  bool_decide (cond x "consensus" "leader" = "consensus") = default false x.
Proof. by destruct x as [[|]|]. Qed.

Lemma strategy_keeps (s : string) :
  cond (Some (bool_decide (s = "consensus"))) "consensus" "leader" = s
  ↔ s = "consensus" ∨ s = "leader".
Proof.
  unfold cond. simpl. case_bool_decide as Hs.
  - split; [by left | done].
  - split; [by right | by intros [?| ->]].
Qed.

Lemma index_type_hnsw (b : bool) :
  bool_decide (Some (if b then "hnsw" else "flat") = Some "hnsw") = b.
Proof. by destruct b. Qed.

Section AdapterProperties.
Context {Number Handler Provider : Type} (num : Q → Number).
Implicit Types (s : SystemConfig Number Handler) (v : V3Config Number Handler Provider).

Lemma hooks_roundtrip (hooks : list (V3Hook Number Handler)) :
  map (λ hook,
         {| hook_name := definition_name hook;
            hook_event := definition_event hook;
            hook_handler := definition_handler hook;
            hook_priority := default (num 50%Q) (definition_priority hook);
            hook_enabled := default true (definition_enabled hook) |})
      (map (λ hook,
              {| definition_name := hook_name hook;
                 definition_event := hook_event hook;
                 definition_handler := hook_handler hook;
                 definition_priority := Some (hook_priority hook);
                 definition_enabled := Some (hook_enabled hook) |}) hooks)
  = hooks.
Proof.
  induction hooks as [|[name event handler priority enabled] hooks IH]; [done|].
  simpl. by rewrite IH.
Qed.

End AdapterProperties.

Lemma v3_roundtrip_normal {Number Handler Provider : Type}
    (num : Q → Number) (cwd : string) (v : V3Config Number Handler Provider) :
  systemConfigToV3Config (Provider:=Provider) num cwd (v3ConfigToSystemConfig num v)
  = {| v3_version := "3.0.0";
       v3_projectRoot := or_string (Some (v3_projectRoot v)) cwd;
       v3_agents :=
         {| agents_defaultType := "coder";
            agents_autoSpawn := agents_autoSpawn (v3_agents v);
            agents_maxConcurrent := agents_maxConcurrent (v3_agents v);
            agents_timeout := num 300000%Q;
            agents_providers := [] |};
       v3_swarm :=
         {| swarm_topology :=
              or_string (Some (swarm_topology (v3_swarm v))) "hierarchical-mesh";
            swarm_maxAgents := swarm_maxAgents (v3_swarm v);
            swarm_autoScale := swarm_autoScale (v3_swarm v);
            swarm_coordinationStrategy :=
              cond (Some (bool_decide
                            (swarm_coordinationStrategy (v3_swarm v) = "consensus")))
                   "consensus" "leader";
            swarm_healthCheckInterval := swarm_healthCheckInterval (v3_swarm v) |};
       v3_memory :=
         {| memory_backend := or_string (Some (memory_backend (v3_memory v))) "hybrid";
            memory_persistPath :=
              or_string (Some (memory_persistPath (v3_memory v))) "./data/memory";
            memory_cacheSize := memory_cacheSize (v3_memory v);
            memory_enableHNSW := memory_enableHNSW (v3_memory v);
            memory_vectorDimension := memory_vectorDimension (v3_memory v) |};
       v3_mcp :=
         {| mcp_serverHost := or_string (Some (mcp_serverHost (v3_mcp v))) "localhost";
            mcp_serverPort := mcp_serverPort (v3_mcp v);
            mcp_autoStart := mcp_autoStart (v3_mcp v);
            mcp_transportType :=
              or_string (Some (mcp_transportType (v3_mcp v))) "stdio";
            mcp_tools := mcp_tools (v3_mcp v) |};
       v3_cli :=
         {| cli_colorOutput := cli_colorOutput (v3_cli v);
            cli_interactive := true;
            cli_verbosity := or_string (Some (cli_verbosity (v3_cli v))) "normal";
            cli_outputFormat := "text";
            cli_progressStyle := "spinner" |};
       v3_hooks :=
         {| hooks_enabled := hooks_enabled (v3_hooks v);
            hooks_autoExecute := hooks_autoExecute (v3_hooks v);
            hooks_hooks := hooks_hooks (v3_hooks v) |} |}.
Proof.
  unfold systemConfigToV3Config, v3ConfigToSystemConfig.
  cbn [mbind option_bind default
       sys_orchestrator sys_swarm sys_memory sys_mcp sys_logging sys_hooks
       orchestrator_session orchestrator_lifecycle session_dataDir
       lifecycle_autoStart lifecycle_maxConcurrentAgents
       sys_swarm_topology sys_swarm_maxAgents sys_swarm_autoScale
       sys_swarm_coordination autoScale_enabled coordination_consensusRequired
       coordination_timeoutMs sys_memory_type sys_memory_path sys_memory_maxSize
       sys_memory_agentdb agentdb_indexType agentdb_dimensions
       sys_mcp_transport sys_mcp_enabled sys_mcp_enabledTools
       transport_host transport_port transport_type
       logging_pretty logging_level
       sys_hooks_enabled sys_hooks_autoExecute sys_hooks_definitions].
  unfold id. by rewrite hooks_roundtrip, index_type_hnsw.
Qed.

Ltac adapter_fields :=
  cbn [v3_version v3_projectRoot v3_agents v3_swarm v3_memory v3_mcp v3_cli v3_hooks
       agents_defaultType agents_autoSpawn agents_maxConcurrent agents_timeout
       agents_providers
       swarm_topology swarm_maxAgents swarm_autoScale swarm_coordinationStrategy
       swarm_healthCheckInterval
       memory_backend memory_persistPath memory_cacheSize memory_enableHNSW
       memory_vectorDimension
       mcp_serverHost mcp_serverPort mcp_autoStart mcp_transportType mcp_tools
       cli_colorOutput cli_interactive cli_verbosity cli_outputFormat
       cli_progressStyle
       hooks_enabled hooks_autoExecute hooks_hooks].

(** X24: converting a system configuration to the configuration of the command
    line tool is stable under the round trip: converting the result back and
    forth again gives the same configuration. *)
Theorem systemConfigToV3Config_roundtrip_stable {Number Handler Provider : Type}
    (num : Q → Number) (cwd : string) (s : SystemConfig Number Handler) :
  systemConfigToV3Config (Provider:=Provider) num cwd
    (v3ConfigToSystemConfig num
       (systemConfigToV3Config (Provider:=Provider) num cwd s))
  = systemConfigToV3Config num cwd s.
Proof.
  rewrite v3_roundtrip_normal. unfold systemConfigToV3Config. adapter_fields.
  by rewrite !or_string_idem, cond_strategy.
Qed.

(** X25: the configurations of the command line tool that survive the round
    trip through the system configuration unchanged are exactly the canonical
    ones: version 3.0.0, default agent type coder, agent timeout 300000, no
    providers, interactive, text output with a spinner, a coordination
    strategy that is consensus or leader, and no empty string setting (an
    empty project root survives only when the working directory is empty
    too). *)
Theorem v3_roundtrip_fixed_points {Number Handler Provider : Type}
    (num : Q → Number) (cwd : string) (v : V3Config Number Handler Provider) :
  systemConfigToV3Config num cwd (v3ConfigToSystemConfig num v) = v
  ↔ v3_canonical num cwd v.
Proof.
  rewrite v3_roundtrip_normal. unfold v3_canonical.
  destruct v as [version root
                 [defaultType autoSpawn maxConcurrent timeout providers]
                 [topology maxAgents autoScale strategy interval]
                 [backend persistPath cacheSize enableHNSW dimension]
                 [host port autoStart transportType tools]
                 [colorOutput interactive verbosity outputFormat progressStyle]
                 [enabled autoExecute hooks]].
  adapter_fields. split.
  - intros Heq. injection Heq as <- Hroot <- <- <- Htopology Hstrategy
      Hbackend Hpath Hhost Htransport <- Hverbosity <- <-.
    apply or_string_keeps in Hroot, Htopology, Hbackend, Hpath, Hhost,
      Htransport, Hverbosity.
    apply strategy_keeps in Hstrategy.
    repeat split; (done || (by intuition discriminate)).
  - intros (-> & Hroot & -> & -> & -> & Htopology & Hstrategy & Hbackend & Hpath
            & Hhost & Htransport & -> & Hverbosity & -> & ->).
    rewrite (proj2 (or_string_keeps root cwd) Hroot),
      (proj2 (or_string_keeps topology _) (or_introl Htopology)),
      (proj2 (or_string_keeps backend _) (or_introl Hbackend)),
      (proj2 (or_string_keeps persistPath _) (or_introl Hpath)),
      (proj2 (or_string_keeps host _) (or_introl Hhost)),
      (proj2 (or_string_keeps transportType _) (or_introl Htransport)),
      (proj2 (or_string_keeps verbosity _) (or_introl Hverbosity)),
      (proj2 (strategy_keeps strategy) Hstrategy).
    reflexivity.
Qed.

(** X26: what the round trip through the system configuration keeps of any
    configuration of the command line tool: every number and every boolean
    except the agent timeout and the interactive flag, the list of tools and
    the whole hooks section with every hook; a string setting is kept unless
    it is empty, and the coordination strategy unless it is neither consensus
    nor leader, in which case it becomes leader.  The agent timeout is
    written to the system configuration but not read back: it returns as
    300000. *)
Theorem v3_roundtrip_keeps {Number Handler Provider : Type}
    (num : Q → Number) (cwd : string) (v : V3Config Number Handler Provider) :
  let v' : V3Config Number Handler Provider :=
    systemConfigToV3Config num cwd (v3ConfigToSystemConfig num v) in
  agents_autoSpawn (v3_agents v') = agents_autoSpawn (v3_agents v)
  ∧ agents_maxConcurrent (v3_agents v') = agents_maxConcurrent (v3_agents v)
  ∧ agents_timeout (v3_agents v') = num 300000%Q
  ∧ swarm_maxAgents (v3_swarm v') = swarm_maxAgents (v3_swarm v)
  ∧ swarm_autoScale (v3_swarm v') = swarm_autoScale (v3_swarm v)
  ∧ swarm_healthCheckInterval (v3_swarm v') = swarm_healthCheckInterval (v3_swarm v)
  ∧ memory_cacheSize (v3_memory v') = memory_cacheSize (v3_memory v)
  ∧ memory_enableHNSW (v3_memory v') = memory_enableHNSW (v3_memory v)
  ∧ memory_vectorDimension (v3_memory v') = memory_vectorDimension (v3_memory v)
  ∧ mcp_serverPort (v3_mcp v') = mcp_serverPort (v3_mcp v)
  ∧ mcp_autoStart (v3_mcp v') = mcp_autoStart (v3_mcp v)
  ∧ mcp_tools (v3_mcp v') = mcp_tools (v3_mcp v)
  ∧ cli_colorOutput (v3_cli v') = cli_colorOutput (v3_cli v)
  ∧ v3_hooks v' = v3_hooks v
  ∧ (v3_projectRoot v ≠ "" → v3_projectRoot v' = v3_projectRoot v)
  ∧ (swarm_topology (v3_swarm v) ≠ "" →
     swarm_topology (v3_swarm v') = swarm_topology (v3_swarm v))
  ∧ (memory_backend (v3_memory v) ≠ "" →
     memory_backend (v3_memory v') = memory_backend (v3_memory v))
  ∧ (memory_persistPath (v3_memory v) ≠ "" →
     memory_persistPath (v3_memory v') = memory_persistPath (v3_memory v))
  ∧ (mcp_serverHost (v3_mcp v) ≠ "" →
     mcp_serverHost (v3_mcp v') = mcp_serverHost (v3_mcp v))
  ∧ (mcp_transportType (v3_mcp v) ≠ "" →
     mcp_transportType (v3_mcp v') = mcp_transportType (v3_mcp v))
  ∧ (cli_verbosity (v3_cli v) ≠ "" →
     cli_verbosity (v3_cli v') = cli_verbosity (v3_cli v))
  ∧ swarm_coordinationStrategy (v3_swarm v')
    = (if bool_decide (swarm_coordinationStrategy (v3_swarm v) = "consensus")
       then "consensus" else "leader").
Proof.
  intros v'. subst v'. rewrite !v3_roundtrip_normal. adapter_fields.
  destruct v as [version root agents swarm memory mcp cli [enabled autoExecute hooks]].
  adapter_fields.
  repeat split; try (intros Hne; apply or_string_keeps; by left).
Qed.

(** X27: the conversion of a system configuration never produces an empty
    string setting: where the system configuration has no value or the empty
    string, the default is used, and the defaults are not empty.  For the
    project root the default is the working directory, which has to be
    non-empty. *)
Theorem systemConfigToV3Config_strings_nonempty {Number Handler Provider : Type}
    (num : Q → Number) (cwd : string) (s : SystemConfig Number Handler) :
  cwd ≠ "" →
  let v : V3Config Number Handler Provider := systemConfigToV3Config num cwd s in
  v3_projectRoot v ≠ ""
  ∧ swarm_topology (v3_swarm v) ≠ ""
  ∧ swarm_coordinationStrategy (v3_swarm v) ≠ ""
  ∧ memory_backend (v3_memory v) ≠ ""
  ∧ memory_persistPath (v3_memory v) ≠ ""
  ∧ mcp_serverHost (v3_mcp v) ≠ ""
  ∧ mcp_transportType (v3_mcp v) ≠ ""
  ∧ cli_verbosity (v3_cli v) ≠ "".
Proof.
  intros Hcwd v. subst v. unfold systemConfigToV3Config. adapter_fields.
  repeat split; try (by apply or_string_nonempty).
  unfold cond. by destruct (default false _).
Qed.

Lemma systemConfigToV3Config_strings_nonempty_witness :
  "/home/dev" ≠ ""
  ∧ v3_projectRoot team_v3 ≠ ""
  ∧ swarm_topology (v3_swarm team_v3) ≠ ""
  ∧ swarm_coordinationStrategy (v3_swarm team_v3) ≠ ""
  ∧ memory_backend (v3_memory team_v3) ≠ ""
  ∧ memory_persistPath (v3_memory team_v3) ≠ ""
  ∧ mcp_serverHost (v3_mcp team_v3) ≠ ""
  ∧ mcp_transportType (v3_mcp team_v3) ≠ ""
  ∧ cli_verbosity (v3_cli team_v3) ≠ "".
Proof.
  split; [done|].
  exact (systemConfigToV3Config_strings_nonempty (Provider:=string)
           (λ q, q) "/home/dev" team_config ltac:(done)).
Defined.
